(** * GarminCoach: workout text parsing and exercise-name resolution

    A shallow embedding of [exercise_mapper.py] and [workout_parser.py].

    Python [str] values are sequences of Unicode code points, so text is
    modelled as [list N].  Python integers are unbounded and are modelled
    as [Z].  A Python [float] is the rational number it holds: [Q] for a
    similarity score, and [Z] for the floats made by [float()] from an
    integer, which are whole numbers. *)

From Stdlib Require Import String Ascii ZArith NArith QArith Qround.
From Stdlib Require Import Lia Lqa Bool Arith List Sorted.
Import ListNotations.
Close Scope Q_scope.

Set Implicit Arguments.

(** ** Text *)

Module Text.

Definition char := N.
Definition str := list char.

Local Open Scope N_scope.

(** Source text of this development is UTF-8; [u] decodes a literal into
    the code points Python sees.  Sequences of one, two and three bytes
    are decoded (code points up to U+FFFF), which covers every literal
    of the two modules. *)
Fixpoint utf8 (bs : list N) : str :=
  match bs with
  | [] => []
  | b :: t =>
      if b <? 128 then b :: utf8 t
      else if b <? 224 then
        match t with
        | c :: t' => ((b - 192) * 64 + (c - 128)) :: utf8 t'
        | [] => [b]
        end
      else
        match t with
        | c :: d :: t' =>
            ((b - 224) * 4096 + (c - 128) * 64 + (d - 128)) :: utf8 t'
        | _ => b :: t
        end
  end.

Definition u (s : string) : str :=
  utf8 (map N_of_ascii (list_ascii_of_string s)).

Definition eqb (a b : str) : bool :=
  if list_eq_dec N.eq_dec a b then true else false.

(** *** Character tables

    [isspace] is Python's [str.isspace] on one code point, which is also
    what [\s] matches in a [str] pattern; the list is complete.  The
    tables for decimal digits, word characters and case are exact for
    Basic Latin and Latin-1 Supplement (code points below 256) and for
    the General Punctuation block; other code points are outside the
    modelled alphabet and are classified as caseless symbols. *)

Definition between (lo hi c : N) : bool := (lo <=? c) && (c <=? hi).

Definition isspace (c : char) : bool :=
  between 9 13 c || between 28 32 c || (c =? 133) || (c =? 160)
  || (c =? 5760) || between 8192 8202 c || (c =? 8232) || (c =? 8233)
  || (c =? 8239) || (c =? 8287) || (c =? 12288).

(** [\d] *)
Definition isdigit (c : char) : bool := between 48 57 c.

Definition isupper_ascii (c : char) : bool := between 65 90 c.
Definition islower_ascii (c : char) : bool := between 97 122 c.

(** Latin-1 letters: a feminine/masculine ordinal, micro sign, and
    U+00C0..U+00FF without the multiplication and division signs. *)
Definition isalpha (c : char) : bool :=
  isupper_ascii c || islower_ascii c
  || (c =? 170) || (c =? 181) || (c =? 186)
  || (between 192 255 c && negb (c =? 215) && negb (c =? 247)).

(** [str.isalnum] also accepts the Latin-1 superscripts and fractions. *)
Definition isalnum (c : char) : bool :=
  isalpha c || isdigit c
  || (c =? 178) || (c =? 179) || (c =? 185) || between 188 190 c.

(** [\w] *)
Definition isword (c : char) : bool := isalnum c || (c =? 95).

Definition lower_char (c : char) : char :=
  if isupper_ascii c then c + 32
  else if between 192 222 c && negb (c =? 215) then c + 32
  else c.

(** [str.upper] may change the length: sharp s becomes "SS"; y with
    diaeresis and the micro sign leave Latin-1. *)
Definition upper_char (c : char) : str :=
  if islower_ascii c then [c - 32]
  else if c =? 223 then [83; 83]
  else if c =? 255 then [376]
  else if c =? 181 then [924]
  else if between 224 254 c && negb (c =? 247) then [c - 32]
  else [c].

Definition lower (s : str) : str := map lower_char s.
Definition upper (s : str) : str := flat_map upper_char s.

(** *** [str] methods used by the two modules *)

Fixpoint lstrip_by (p : char -> bool) (s : str) : str :=
  match s with
  | c :: t => if p c then lstrip_by p t else s
  | [] => []
  end.

Definition rstrip_by (p : char -> bool) (s : str) : str :=
  rev (lstrip_by p (rev s)).

(** [s.strip()] *)
Definition strip (s : str) : str := rstrip_by isspace (lstrip_by isspace s).

(** [s.lstrip(chars)], [s.rstrip(chars)] for a one-character argument *)
Definition lstrip_chr (c : char) : str -> str := lstrip_by (N.eqb c).
Definition rstrip_chr (c : char) : str -> str := rstrip_by (N.eqb c).

Fixpoint startswith (p s : str) : bool :=
  match p, s with
  | [], _ => true
  | a :: p', b :: s' => (a =? b) && startswith p' s'
  | _ :: _, [] => false
  end.

Definition endswith (p s : str) : bool := startswith (rev p) (rev s).

(** [s.split(sep)] for a one-character separator *)
Fixpoint split_chr (sep : char) (s : str) : list str :=
  match s with
  | [] => [[]]
  | c :: t =>
      if c =? sep then [] :: split_chr sep t
      else match split_chr sep t with
           | w :: ws => (c :: w) :: ws
           | [] => [[c]]
           end
  end.

(** [s.split()]: maximal runs of non-whitespace characters *)
Fixpoint split_ws_aux (cur : str) (s : str) : list str :=
  match s with
  | [] => match cur with [] => [] | _ => [rev cur] end
  | c :: t =>
      if isspace c
      then match cur with
           | [] => split_ws_aux [] t
           | _ => rev cur :: split_ws_aux [] t
           end
      else split_ws_aux (c :: cur) t
  end.

Definition split_ws (s : str) : list str := split_ws_aux [] s.

(** [sep.join(parts)] *)
Fixpoint join (sep : str) (parts : list str) : str :=
  match parts with
  | [] => []
  | [w] => w
  | w :: ws => w ++ sep ++ join sep ws
  end.

(** [int(s)] for a non-empty run of decimal digits.  Integers are
    unbounded; the interpreter's configurable cap on the number of
    digits [int] accepts is not modelled. *)
Definition int_of (s : str) : Z :=
  fold_left (fun acc c => (acc * 10 + Z.of_N (c - 48))%Z) s 0%Z.

(** [str(n)] / the [{n}] of an f-string for an integer *)
Fixpoint digits_of (fuel : nat) (n : N) (acc : str) : str :=
  match fuel with
  | O => acc
  | S f =>
      let acc' := (48 + n mod 10) :: acc in
      if n <? 10 then acc' else digits_of f (n / 10) acc'
  end.

Definition str_of_Z (z : Z) : str :=
  let n := Z.abs_N z in
  let ds := digits_of (S (N.to_nat (N.log2 n))) n [] in
  if (z <? 0)%Z then 45 :: ds else ds.

(** Lexicographic order on code points, the order of [sorted] on strings *)
Fixpoint leb (a b : str) : bool :=
  match a, b with
  | [], _ => true
  | _ :: _, [] => false
  | x :: a', y :: b' => (x <? y) || ((x =? y) && leb a' b')
  end.

End Text.

Import Text.

(** ** Regular expressions

    The patterns of [workout_parser.py] are matched by Python's
    backtracking engine: alternatives are tried left to right, greedy
    repetitions take as much as they can first, lazy ones as little, and
    the first overall success fixes the groups.  [exec] is that search,
    written with a success continuation. *)

Module Re.

Local Open Scope N_scope.

Inductive regex : Type :=
| Eps
| Bol                                  (* ^ *)
| Eol                                  (* $ *)
| Chr (p : char -> bool)               (* one character: literal, class, \d, \s, . *)
| Seq (r1 r2 : regex)
| Alt (r1 r2 : regex)                  (* r1|r2 *)
| Rep (greedy : bool) (r : regex)      (* r* and r*? *)
| Grp (n : nat) (r : regex).           (* capturing group number n *)

(** Group bindings, most recent first. *)
Definition groups := list (nat * str).

Fixpoint group (n : nat) (g : groups) : option str :=
  match g with
  | [] => None
  | (m, v) :: g' => if Nat.eqb n m then Some v else group n g'
  end.

Definition orelse {A} (a b : option A) : option A :=
  match a with Some _ => a | None => b end.

(** [$] without MULTILINE: at the end, or before a final newline. *)
Definition at_eol (s : str) : bool :=
  match s with
  | [] => true
  | [c] => c =? 10
  | _ => false
  end.

Section Exec.
Variable A : Type.
(** length of the whole subject, to recognise position 0 *)
Variable whole : nat.

Fixpoint exec (r : regex) (s : str) (g : groups)
         (k : str -> groups -> option A) {struct r} : option A :=
  match r with
  | Eps => k s g
  | Bol => if Nat.eqb (length s) whole then k s g else None
  | Eol => if at_eol s then k s g else None
  | Chr p =>
      match s with
      | c :: t => if p c then k t g else None
      | [] => None
      end
  | Seq r1 r2 => exec r1 s g (fun s' g' => exec r2 s' g' k)
  | Alt r1 r2 => orelse (exec r1 s g k) (exec r2 s g k)
  | Rep greedy r1 =>
      (fix loop (fuel : nat) (s : str) (g : groups) {struct fuel} : option A :=
         match fuel with
         | O => k s g
         | S fuel' =>
             let again :=
               exec r1 s g
                    (fun s' g' =>
                       if Nat.ltb (length s') (length s)
                       then loop fuel' s' g' else None) in
             if greedy then orelse again (k s g) else orelse (k s g) again
         end) (S (length s)) s g
  | Grp n r1 =>
      exec r1 s g
           (fun s' g' => k s' ((n, firstn (length s - length s') s) :: g'))
  end.
End Exec.

(** [pattern.match(s)]: anchored at position 0; on success the groups
    and the unconsumed rest of the subject. *)
Definition re_match (r : regex) (s : str) : option (groups * str) :=
  exec (length s) r s [] (fun s' g => Some (g, s')).

(** [re.sub(pattern, '', s)] for a pattern that starts with [^]: only a
    match at position 0 can be replaced. *)
Definition sub_prefix (r : regex) (s : str) : str :=
  match re_match r s with
  | Some (_, rest) => rest
  | None => s
  end.

(** *** Pattern syntax, with IGNORECASE folded into the literals *)

Fixpoint seq (rs : list regex) : regex :=
  match rs with
  | [] => Eps
  | [r] => r
  | r :: rs' => Seq r (seq rs')
  end.

Definition star (r : regex) : regex := Rep true r.
Definition plus (r : regex) : regex := Seq r (Rep true r).
Definition plus_lazy (r : regex) : regex := Seq r (Rep false r).
Definition opt (r : regex) : regex := Alt r Eps.

(** A literal character under IGNORECASE (pattern letters are lower case). *)
Definition lit (c : char) : regex := Chr (fun d => lower_char d =? c).

(** A literal word under IGNORECASE. *)
Definition word (w : string) : regex := seq (map lit (u w)).

(** A character class under IGNORECASE: listed characters and shorthand sets. *)
Definition cls (cs : str) (sets : list (char -> bool)) : regex :=
  Chr (fun d => existsb (N.eqb (lower_char d)) cs || existsb (fun p => p d) sets).

Definition digit : regex := Chr isdigit.                    (* \d *)
Definition space : regex := Chr isspace.                    (* \s *)
Definition dot : regex := Chr (fun c => negb (c =? 10)).    (* . *)

End Re.

Import Re.

(** ** Errors

    A Python call either returns a value or raises.  The exceptions the
    modelled code can raise on well-typed data are the [KeyError] of a
    dictionary subscript and the [OverflowError] of [float()] and of
    date arithmetic. *)

Inductive exn : Type :=
| KeyError (key : str)
| OverflowError.

Inductive result (A : Type) : Type :=
| Ok (a : A)
| Raise (e : exn).

Arguments Ok {A} a.
Arguments Raise {A} e.

Definition bind {A B} (m : result A) (f : A -> result B) : result B :=
  match m with
  | Ok a => f a
  | Raise e => Raise e
  end.

Notation "x <- m ;; k" := (bind m (fun x => k))
  (at level 61, m at next level, right associativity).

(** ** Numbers *)

Module Float.

Local Open Scope Z_scope.

(** [float(n)] for an integer [n]: the nearest double, ties going to the
    even significand, and [OverflowError] when that is beyond the largest
    finite double.  The double of an integer is a whole number and is
    kept as that number.  Below 2^53 the conversion is exact; above, the
    integer is cut to its 53 leading bits and the rest decides the
    rounding. *)
Definition float_of_int (n : Z) : result Z :=
  let m := Z.abs n in
  let value :=
    if m <? 2 ^ 53 then m
    else
      let shift := Z.log2 m - 52 in
      let q := m / 2 ^ shift in
      let r := m mod 2 ^ shift in
      let half := 2 ^ (shift - 1) in
      let q' :=
        if r <? half then q
        else if half <? r then q + 1
        else if Z.even q then q else q + 1 in
      q' * 2 ^ shift in
  if 2 ^ 1024 <=? value then Raise OverflowError
  else Ok (Z.sgn n * value).

(** [round(x)] for a float [x], as [int(round(x))] gives it: the nearest
    integer, ties going to the even neighbour. *)
Definition round (x : Q) : Z :=
  let d := Qfloor x in
  match (x - inject_Z d ?= 1 # 2)%Q with
  | Lt => d
  | Gt => d + 1
  | Eq => if Z.even d then d else d + 1
  end.

End Float.

(** ** The fuzzy matcher used by [ExerciseMapper]

    [thefuzz] is a third-party package, not part of the repository.
    Handed [fuzz.token_sort_ratio], its [process.extractBests] runs the
    scorer of the same name of [rapidfuzz], which returns a float
    percentage; the matches are ranked on that float, and only then is
    each score turned into an integer by [int(round(score))].  The
    mapper is therefore parametric in the unrounded scorer;
    [token_sort_ratio] below follows the package's documented behaviour
    and is used where a concrete score is needed. *)

Module Fuzz.

Local Open Scope Z_scope.

(** [utils.full_process(s, force_ascii=True)]: drop the code points
    U+0080 to U+00FF, replace every character that is not a letter or a
    digit by a space, lower-case, trim. *)
Definition full_process (s : str) : str :=
  strip (lower (map (fun c => if isalnum c then c else 32%N)
                    (filter (fun c => negb (between 128 255 c)) s))).

Fixpoint insert_token (w : str) (ws : list str) : list str :=
  match ws with
  | [] => [w]
  | v :: ws' => if Text.leb w v then w :: ws else v :: insert_token w ws'
  end.

(** [sorted(tokens)] *)
Definition sorted (ws : list str) : list str := fold_right insert_token [] ws.

(** [" ".join(sorted(full_process(s).split())).strip()] *)
Definition process_and_sort (s : str) : str :=
  strip (join [32%N] (sorted (split_ws (full_process s)))).

(** Length of a longest common subsequence. *)
Fixpoint lcs (a b : str) : nat :=
  match a with
  | [] => O
  | x :: a' =>
      (fix inner (b : str) : nat :=
         match b with
         | [] => O
         | y :: b' =>
             if (x =? y)%N then S (lcs a' b')
             else Nat.max (lcs a' b) (inner b')
         end) b
  end.

(** The unrounded [ratio]: the normalised insertion/deletion similarity
    [2 * lcs / (len a + len b)] as a percentage; two empty strings are
    identical and score 100.  The quotient is taken exactly, where the
    package computes it in floating point. *)
Definition ratio (a b : str) : Q :=
  match (length a + length b)%nat with
  | O => 100 # 1
  | S _ as total => (200 * Z.of_nat (lcs a b)) # Pos.of_nat total
  end.

(** The unrounded [token_sort_ratio] *)
Definition token_sort_ratio (s1 s2 : str) : Q :=
  ratio (process_and_sort s1) (process_and_sort s2).

Section Extract.
(** the unrounded scorer *)
Variable scorer : str -> str -> Q.

(** The score reported for a choice: [int(round(score))]. *)
Definition score (query choice : str) : Z :=
  Float.round (scorer query choice).

(** Insertion into a list sorted by descending score, ahead of the
    entries that do not score strictly higher. *)
Fixpoint insert_desc (x : str * Q) (l : list (str * Q)) : list (str * Q) :=
  match l with
  | [] => [x]
  | y :: l' =>
      match (snd x ?= snd y)%Q with
      | Lt => y :: insert_desc x l'
      | _ => x :: l
      end
  end.

(** Stable sort by descending score: equal scores keep the order in
    which the choices were given. *)
Definition sort_desc (l : list (str * Q)) : list (str * Q) :=
  fold_right insert_desc [] l.

(** [process.extractBests(query, choices, scorer=scorer,
    score_cutoff=score_cutoff, limit=limit)]: every choice is scored,
    those below the cutoff are dropped, the [limit] best are kept, best
    first, and their scores are rounded. *)
Definition extractBests (query : str) (choices : list str)
           (score_cutoff : Q) (limit : nat) : list (str * Z) :=
  map (fun m => (fst m, Float.round (snd m)))
      (firstn limit
              (sort_desc
                 (filter (fun m => Qle_bool score_cutoff (snd m))
                         (map (fun c => (c, scorer query c)) choices)))).
End Extract.

End Fuzz.

(** ** [exercise_mapper.py] *)

Module ExerciseMapper.

Local Open Scope Z_scope.

(** A value of the ["exercises"] mapping.  A stored entry may lack the
    ["muscles"] key. *)
Record entry : Type := {
  garmin_name : str;
  garmin_category : str;
  muscles : option (list str)
}.

(** [self.exercise_map]: a Python dictionary, which keeps its keys in
    insertion order. *)
Definition catalog := list (str * entry).

Definition keys (d : catalog) : list str := map fst d.

(** [key in d] / [d.get(key)] *)
Fixpoint lookup (k : str) (d : catalog) : option entry :=
  match d with
  | [] => None
  | (k', v) :: d' => if Text.eqb k k' then Some v else lookup k d'
  end.

(** [d[key]] *)
Definition subscript (d : catalog) (k : str) : result entry :=
  match lookup k d with
  | Some v => Ok v
  | None => Raise (KeyError k)
  end.

(** [d[key] = v]: an existing key keeps its position. *)
Fixpoint assign (k : str) (v : entry) (d : catalog) : catalog :=
  match d with
  | [] => [(k, v)]
  | (k', v') :: d' =>
      if Text.eqb k k' then (k, v) :: d' else (k', v') :: assign k v d'
  end.

(** [_load_map]: [stored] is the ["exercises"] mapping of the document,
    or [None] when the file is missing or is not valid JSON. *)
Definition _load_map (stored : option catalog) : catalog :=
  match stored with
  | Some d => d
  | None => []
  end.

(** [re.sub(p+, by, s)]: every maximal run of characters in [p] is
    replaced by [by_]. *)
Fixpoint sub_runs (p : char -> bool) (by_ : str) (in_run : bool) (s : str) : str :=
  match s with
  | [] => []
  | c :: t =>
      if p c
      then (if in_run then sub_runs p by_ true t
            else by_ ++ sub_runs p by_ true t)
      else c :: sub_runs p by_ false t
  end.

(** The class [[^\w\s-]] *)
Definition special (c : char) : bool :=
  negb (isword c || isspace c || (c =? 45)%N).

(** [re.sub(r'[^\w\s-]', '', s)] *)
Definition remove_special (s : str) : str :=
  filter (fun c => negb (special c)) s.

Definition _normalize_name (name : str) : str :=
  let name := strip (lower name) in
  let name := sub_runs isspace [32%N] false name in
  let name := remove_special name in
  name.

Definition _to_garmin_format (name : str) : str :=
  let formatted := remove_special name in
  let formatted :=
    sub_runs (fun c => isspace c || (c =? 45)%N) [95%N] false formatted in
  upper formatted.

Definition unknown (name : str) : entry :=
  {| garmin_name := _to_garmin_format name;
     garmin_category := u "UNKNOWN";
     muscles := Some [] |}.

Section Mapper.
(** [fuzz.token_sort_ratio], before rounding *)
Variable scorer : str -> str -> Q.

Definition map_exercise (exercise_map : catalog) (name : str)
  : result (entry * Z) :=
  let normalized := _normalize_name name in
  match lookup normalized exercise_map with
  | Some e => Ok (e, 100)
  | None =>
      match exercise_map with
      | [] => Ok (unknown name, 0)
      | _ :: _ =>
          let matches :=
            Fuzz.extractBests scorer normalized (keys exercise_map) 0%Q 3 in
          match matches with
          | (best_match, confidence) :: _ =>
              if 70 <=? confidence
              then e <- subscript exercise_map best_match ;;
                   Ok (e, confidence)
              else Ok (unknown name, 0)
          | [] => Ok (unknown name, 0)
          end
      end
  end.

(** [search]: the ranking of all keys against a query, best first. *)
Definition search (exercise_map : catalog) (query : str) (limit : nat)
  : list (str * Z) :=
  match exercise_map with
  | [] => []
  | _ :: _ =>
      let normalized := _normalize_name query in
      Fuzz.extractBests scorer normalized (keys exercise_map) 0%Q limit
  end.
End Mapper.

(** [list_exercises] *)
Definition list_exercises (exercise_map : catalog) : list str :=
  keys exercise_map.

(** [add_mapping], on the in-memory mapping; [_save_map] then writes the
    document to storage. *)
Definition add_mapping (exercise_map : catalog)
           (name garmin_name category : str) (muscles : option (list str))
  : catalog :=
  let normalized := _normalize_name name in
  assign normalized
         {| garmin_name := garmin_name;
            garmin_category := category;
            muscles := Some match muscles with   (* muscles or [] *)
                            | Some ms => ms
                            | None => []
                            end |}
         exercise_map.

(** A catalog operation after the initial load. *)
Inductive operation : Type :=
| Add (name garmin_name category : str) (muscles : option (list str)).

Definition apply (d : catalog) (o : operation) : catalog :=
  match o with
  | Add n g c m => add_mapping d n g c m
  end.

Definition run (stored : option catalog) (ops : list operation) : catalog :=
  fold_left apply ops (_load_map stored).

Definition added_name (o : operation) : str :=
  match o with Add n _ _ _ => n end.

End ExerciseMapper.

(** ** [workout_parser.py] *)

Module WorkoutParser.

Local Open Scope Z_scope.

Inductive kind : Type := Reps | Duration.

(** The dictionary built by [parse_exercise_line].  Keys that a rule
    leaves out, or sets to [None], are [None] here. *)
Record exercise : Type := {
  raw_name : str;
  sets : Z;
  reps : option Z;
  reps_high : option Z;
  duration_seconds : option Z;
  type : kind;
  garmin_name : str;
  garmin_category : str;
  muscles : list str;
  mapping_confidence : Z;
  section : option str
}.

(** What a rule extracts from a line, before the name is resolved. *)
Record fields : Type := {
  f_raw_name : str;
  f_sets : Z;
  f_reps : option Z;
  f_reps_high : option Z;
  f_duration_seconds : option Z;
  f_type : kind
}.

(** *** [self.patterns] *)

Definition x_sep : regex := cls (u "x×") [].                 (* [x×] *)
Definition dash : regex := cls (u "-–") [].                  (* [-–] *)
Definition sets_word : regex := Seq (word "set") (opt (lit 115%N)).   (* sets? *)
Definition reps_word : regex := Seq (word "rep") (opt (lit 115%N)).   (* reps? *)

(** [(?:sec(?:onds?)?|s)] *)
Definition seconds_unit : regex :=
  Alt (Seq (word "sec") (opt (Seq (word "ond") (opt (lit 115%N)))))
      (lit 115%N).

(** [^(\d+)\s*[x×]\s*(\d+)[-–]?(\d+)?\s+(.+)$] *)
Definition sets_reps_name : regex :=
  seq [Bol; Grp 1 (plus digit); star space; x_sep; star space;
       Grp 2 (plus digit); opt dash; opt (Grp 3 (plus digit));
       plus space; Grp 4 (plus dot); Eol].

(** [^(.+?)[-–\s]+(\d+)\s*[x×]\s*(\d+)[-–]?(\d+)?$] *)
Definition name_sets_reps : regex :=
  seq [Bol; Grp 1 (plus_lazy dot); plus (cls (u "-–") [isspace]);
       Grp 2 (plus digit); star space; x_sep; star space;
       Grp 3 (plus digit); opt dash; opt (Grp 4 (plus digit)); Eol].

(** [^(.+?)[-–—:]+\s*(\d+)\s*sets?\s*[x×,]\s*(\d+)[-–]?(\d+)?\s*reps?] *)
Definition verbose : regex :=
  seq [Bol; Grp 1 (plus_lazy dot); plus (cls (u "-–—:") []); star space;
       Grp 2 (plus digit); star space; sets_word; star space;
       cls (u "x×,") []; star space;
       Grp 3 (plus digit); opt dash; opt (Grp 4 (plus digit));
       star space; reps_word].

(** [^(\d+)\s*sets?\s*(?:of\s+)?(.+)$] *)
Definition sets_of_name : regex :=
  seq [Bol; Grp 1 (plus digit); star space; sets_word; star space;
       opt (Seq (word "of") (plus space)); Grp 2 (plus dot); Eol].

(** [^(.+?)[-–—:\s]+(\d+)\s*(?:sec(?:onds?)?|s)$] *)
Definition duration : regex :=
  seq [Bol; Grp 1 (plus_lazy dot); plus (cls (u "-–—:") [isspace]);
       Grp 2 (plus digit); star space; seconds_unit; Eol].

(** [^(\d+)\s*[x×]\s*(\d+)\s*(?:sec(?:onds?)?|s)\s+(.+)$] *)
Definition sets_duration_name : regex :=
  seq [Bol; Grp 1 (plus digit); star space; x_sep; star space;
       Grp 2 (plus digit); star space; seconds_unit; plus space;
       Grp 3 (plus dot); Eol].

(** [skip_patterns], each tried with [re.match] and IGNORECASE *)
Definition skip_patterns : list regex :=
  [ seq [Bol; word "warm"; opt (cls (u "-") [isspace]); word "up"];
    seq [Bol; word "cool"; opt (cls (u "-") [isspace]); word "down"];
    seq [Bol; word "stretch"];
    seq [Bol; word "rest"];
    seq [Bol; plus digit; star space; word "min"];
    seq [Bol; plus (lit 8212%N); Eol];
    seq [Bol; plus (lit 45%N); Eol] ].

(** *** [parse_exercise_line] *)

(** [match.groups()]: a group that took no part in the match is [None];
    the rules only read groups that did, except the optional upper end
    of a rep range. *)
Definition grp (n : nat) (m : groups * str) : str :=
  match group n (fst m) with
  | Some v => v
  | None => []
  end.

(** [int(reps_high) if reps_high else None] *)
Definition grp_int (n : nat) (m : groups * str) : option Z :=
  match group n (fst m) with
  | Some [] => None
  | Some v => Some (int_of v)
  | None => None
  end.

(** The test that returns [None] before any rule is tried; [line] is
    already stripped. *)
Definition skipped (line : str) : bool :=
  match line with [] => true | _ => false end
  || startswith (u "#") line || startswith (u "//") line
  || existsb (fun p => match re_match p line with
                       | Some _ => true
                       | None => false
                       end) skip_patterns.

Definition rule_sets_reps_name (line : str) : option fields :=
  match re_match sets_reps_name line with
  | Some m =>
      Some {| f_raw_name := strip (grp 4 m);
              f_sets := int_of (grp 1 m);
              f_reps := Some (int_of (grp 2 m));
              f_reps_high := grp_int 3 m;
              f_duration_seconds := None;
              f_type := Reps |}
  | None => None
  end.

Definition rule_name_sets_reps (line : str) : option fields :=
  match re_match name_sets_reps line with
  | Some m =>
      Some {| f_raw_name := strip (grp 1 m);
              f_sets := int_of (grp 2 m);
              f_reps := Some (int_of (grp 3 m));
              f_reps_high := grp_int 4 m;
              f_duration_seconds := None;
              f_type := Reps |}
  | None => None
  end.

Definition rule_verbose (line : str) : option fields :=
  match re_match verbose line with
  | Some m =>
      Some {| f_raw_name := strip (grp 1 m);
              f_sets := int_of (grp 2 m);
              f_reps := Some (int_of (grp 3 m));
              f_reps_high := grp_int 4 m;
              f_duration_seconds := None;
              f_type := Reps |}
  | None => None
  end.

Definition rule_sets_duration_name (line : str) : option fields :=
  match re_match sets_duration_name line with
  | Some m =>
      Some {| f_raw_name := strip (grp 3 m);
              f_sets := int_of (grp 1 m);
              f_reps := None;
              f_reps_high := None;
              f_duration_seconds := Some (int_of (grp 2 m));
              f_type := Duration |}
  | None => None
  end.

Definition rule_duration (line : str) : option fields :=
  match re_match duration line with
  | Some m =>
      Some {| f_raw_name := strip (grp 1 m);
              f_sets := 1;
              f_reps := None;
              f_reps_high := None;
              f_duration_seconds := Some (int_of (grp 2 m));
              f_type := Duration |}
  | None => None
  end.

Definition rule_sets_of_name (line : str) : option fields :=
  match re_match sets_of_name line with
  | Some m =>
      Some {| f_raw_name := strip (grp 2 m);
              f_sets := int_of (grp 1 m);
              f_reps := Some 10;
              f_reps_high := None;
              f_duration_seconds := None;
              f_type := Reps |}
  | None => None
  end.

(** The last block: a line that looks like an exercise name. *)
Definition rule_name_only (line : str) : option fields :=
  if (3 <? Z.of_nat (length line)) && negb (endswith (u ":") line)
  then Some {| f_raw_name := line;
               f_sets := 3;
               f_reps := Some 10;
               f_reps_high := None;
               f_duration_seconds := None;
               f_type := Reps |}
  else None.

(** The blocks of [parse_exercise_line] in source order; each runs only
    [if not result]. *)
Definition rules : list (str -> option fields) :=
  [ rule_sets_reps_name; rule_name_sets_reps; rule_verbose;
    rule_sets_duration_name; rule_duration; rule_sets_of_name;
    rule_name_only ].

Fixpoint first_result (rs : list (str -> option fields)) (line : str)
  : option fields :=
  match rs with
  | [] => None
  | r :: rs' =>
      match r line with
      | Some f => Some f
      | None => first_result rs' line
      end
  end.

(** The dictionary after the mapper's answer has been stored in it:
    [garmin_name], [garmin_category], [mapped.get("muscles", [])] and
    [mapping_confidence]. *)
Definition resolved (f : fields) (mapped : ExerciseMapper.entry)
           (confidence : Z) : exercise :=
  {| raw_name := f_raw_name f;
     sets := f_sets f;
     reps := f_reps f;
     reps_high := f_reps_high f;
     duration_seconds := f_duration_seconds f;
     type := f_type f;
     garmin_name := ExerciseMapper.garmin_name mapped;
     garmin_category := ExerciseMapper.garmin_category mapped;
     muscles := match ExerciseMapper.muscles mapped with
                | Some ms => ms
                | None => []
                end;
     mapping_confidence := confidence;
     section := None |}.

Section Parser.
(** [fuzz.token_sort_ratio], before rounding *)
Variable scorer : str -> str -> Q.
(** [self.mapper.exercise_map] *)
Variable exercise_map : ExerciseMapper.catalog.

Definition parse_exercise_line (line : str) : result (option exercise) :=
  let line := strip line in
  if skipped line then Ok None
  else
    match first_result rules line with
    | None => Ok None
    | Some f =>
        mc <- ExerciseMapper.map_exercise scorer exercise_map (f_raw_name f) ;;
        let (mapped, confidence) := mc : ExerciseMapper.entry * Z in
        Ok (Some (resolved f mapped confidence))
    end.

(** *** [parse_workout] *)

(** [line.rstrip(':').lstrip('#').strip()] *)
Definition header_name (line : str) : str :=
  strip (lstrip_chr 35%N (rstrip_chr 58%N line)).

Definition list_markers : list str :=
  map u ["- "; "• "; "* "; "1."; "2."; "3."; "4."; "5."]%string.

(** [^[-•*]\s*] and [^\d+\.\s*] *)
Definition bullet : regex := seq [Bol; cls (u "-•*") []; star space].
Definition numbering : regex :=
  seq [Bol; plus digit; lit 46%N; star space].

Definition strip_marker (line : str) : str :=
  if existsb (fun p => startswith p line) list_markers
  then sub_prefix numbering (sub_prefix bullet line)
  else line.

(** The text appended for a low-confidence mapping. *)
Definition warning (e : exercise) : str :=
  u "Low confidence mapping for '" ++ raw_name e
    ++ u "' -> '" ++ garmin_name e
    ++ u "' (" ++ str_of_Z (mapping_confidence e) ++ u "%)".

Definition low_confidence (e : exercise) : bool :=
  mapping_confidence e <? 70.

Definition with_section (e : exercise) (s : option str) : exercise :=
  {| raw_name := raw_name e; sets := sets e; reps := reps e;
     reps_high := reps_high e; duration_seconds := duration_seconds e;
     type := type e; garmin_name := garmin_name e;
     garmin_category := garmin_category e; muscles := muscles e;
     mapping_confidence := mapping_confidence e; section := s |}.

(** The body of [for line in lines], threading [current_section],
    [exercises] and [warnings]. *)
Fixpoint scan (lines : list str) (current_section : option str)
         (exercises : list exercise) (warnings : list str)
  : result (list exercise * list str) :=
  match lines with
  | [] => Ok (exercises, warnings)
  | line :: rest =>
      let line := strip line in
      if endswith (u ":") line || startswith (u "##") line
      then scan rest (Some (header_name line)) exercises warnings
      else
        let line := strip_marker line in
        parsed <- parse_exercise_line line ;;
        match parsed with
        | Some e =>
            let e := with_section e current_section in
            scan rest current_section (exercises ++ [e])
                 (if low_confidence e
                  then warnings ++ [warning e] else warnings)
        | None => scan rest current_section exercises warnings
        end
  end.

Record workout : Type := {
  name : str;
  exercises : list exercise;
  exercise_count : Z;
  warnings : list str
}.

Definition parse_workout (text name : str) : result workout :=
  let lines := split_chr 10%N (strip text) in
  r <- scan lines None [] [] ;;
  Ok {| name := name;
        exercises := fst r;
        exercise_count := Z.of_nat (length (fst r));
        warnings := snd r |}.
End Parser.

(** *** [to_garmin_format] *)

Record tagged : Type := { id : Z; key : str }.

(** An [ExecutableStepDTO].  [endConditionValue] is a float made from an
    integer: a whole number, kept as such.  Only the interval step names
    an exercise: [exercise_ref] is its [category] and [exerciseName]
    (with the fixed kilogram [weightUnit] and no [weightValue]). *)
Record executable_step : Type := {
  stepOrder : Z;
  stepType : tagged;
  endCondition : tagged;
  endConditionValue : Z;
  targetType : tagged;
  exercise_ref : option (str * str)
}.

(** A [RepeatGroupDTO]. *)
Record repeat_group : Type := {
  group_stepOrder : Z;
  group_stepType : tagged;
  numberOfIterations : Z;
  workoutSteps : list executable_step
}.

Record garmin_workout : Type := {
  workoutName : str;
  description : str;
  sportType : tagged;
  (** [workoutSegments[0]["workoutSteps"]]; there is one segment *)
  segmentSteps : list repeat_group
}.

Definition no_target : tagged := {| id := 1; key := u "no.target" |}.

Definition repeat_group_of (e : exercise) (step_order : Z)
  : result repeat_group :=
  let reps := match reps e with Some r => r | None => 10 end in
  ends <-
    match type e with
    | Duration =>
        end_value <-
          Float.float_of_int
            (match duration_seconds e with Some d => d | None => 30 end) ;;
        Ok ({| id := 2; key := u "time" |}, end_value)
    | Reps =>
        end_value <- Float.float_of_int reps ;;
        Ok ({| id := 10; key := u "reps" |}, end_value)
    end ;;
  Ok {| group_stepOrder := step_order;
        group_stepType := {| id := 6; key := u "repeat" |};
        numberOfIterations := sets e;
        workoutSteps :=
          [ {| stepOrder := step_order + 1;
               stepType := {| id := 3; key := u "interval" |};
               endCondition := fst ends;
               endConditionValue := snd ends;
               targetType := no_target;
               exercise_ref := Some (garmin_category e, garmin_name e) |};
            {| stepOrder := step_order + 2;
               stepType := {| id := 5; key := u "rest" |};
               endCondition := {| id := 1; key := u "lap.button" |};
               endConditionValue := 0;
               targetType := no_target;
               exercise_ref := None |} ] |}.

(** The loop over [workout["exercises"]], with [step_order += 3]; it
    ends at the first exercise whose count [float()] refuses. *)
Fixpoint steps_from (step_order : Z) (es : list exercise)
  : result (list repeat_group) :=
  match es with
  | [] => Ok []
  | e :: es' =>
      g <- repeat_group_of e step_order ;;
      gs <- steps_from (step_order + 3) es' ;;
      Ok (g :: gs)
  end.

Definition to_garmin_format (w : workout) : result garmin_workout :=
  workout_steps <- steps_from 1 (exercises w) ;;
  Ok {| workoutName := name w;
        description :=
          u "Created via GarminCoach. "
            ++ str_of_Z (Z.of_nat (length (exercises w))) ++ u " exercises.";
        sportType := {| id := 5; key := u "strength_training" |};
        segmentSteps := workout_steps |}.

(** All step-order numbers of a step structure, in document order. *)
Definition step_orders (gs : list repeat_group) : list Z :=
  flat_map (fun g => group_stepOrder g :: map stepOrder (workoutSteps g)) gs.

(** [parse_workout_text]: parse, then convert; the new parser's mapper
    loads [exercise_map]. *)
Definition parse_workout_text (scorer : str -> str -> Q)
           (exercise_map : ExerciseMapper.catalog) (text name : str)
  : result (workout * garmin_workout) :=
  parsed <- parse_workout scorer exercise_map text name ;;
  garmin_format <- to_garmin_format parsed ;;
  Ok (parsed, garmin_format).

End WorkoutParser.

(** ** [garmin_client.py]: [build_strength_workout] *)

Module GarminClient.

Import WorkoutParser.
Local Open Scope Z_scope.

(** An element of [exercises]; any of the four keys may be missing. *)
Record strength_exercise : Type := {
  se_name : option str;
  se_category : option str;
  se_sets : option Z;
  se_reps : option Z
}.

Definition get {A} (field : option A) (default : A) : A :=
  match field with
  | Some v => v
  | None => default
  end.

Definition strength_group (e : strength_exercise) (step_order : Z)
  : result repeat_group :=
  let sets := get (se_sets e) 3 in
  let reps := get (se_reps e) 10 in
  let category := get (se_category e) (u "UNKNOWN") in
  let exercise_name := get (se_name e) (u "UNKNOWN") in
  end_value <- Float.float_of_int reps ;;
  Ok {| group_stepOrder := step_order;
        group_stepType := {| id := 6; key := u "repeat" |};
        numberOfIterations := sets;
        workoutSteps :=
          [ {| stepOrder := step_order + 1;
               stepType := {| id := 3; key := u "interval" |};
               endCondition := {| id := 10; key := u "reps" |};
               endConditionValue := end_value;
               targetType := no_target;
               exercise_ref := Some (category, exercise_name) |};
            {| stepOrder := step_order + 2;
               stepType := {| id := 5; key := u "rest" |};
               endCondition := {| id := 1; key := u "lap.button" |};
               endConditionValue := 0;
               targetType := no_target;
               exercise_ref := None |} ] |}.

(** The loop over [exercises], with [step_order += 3]; it ends at the
    first exercise whose rep count [float()] refuses. *)
Fixpoint strength_steps (step_order : Z) (es : list strength_exercise)
  : result (list repeat_group) :=
  match es with
  | [] => Ok []
  | e :: es' =>
      g <- strength_group e step_order ;;
      gs <- strength_steps (step_order + 3) es' ;;
      Ok (g :: gs)
  end.

Definition build_strength_workout (name : str)
           (exercises : list strength_exercise) (description : str)
  : result garmin_workout :=
  workout_steps <- strength_steps 1 exercises ;;
  Ok {| workoutName := name;
        description :=
          match description with                (* description or f"..." *)
          | _ :: _ => description
          | [] =>
              u "Created via GarminCoach. "
                ++ str_of_Z (Z.of_nat (length exercises)) ++ u " exercises."
          end;
        sportType := {| id := 5; key := u "strength_training" |};
        segmentSteps := workout_steps |}.

End GarminClient.

(** ** [garmin_tool.py]: the dates of [schedule_workout]

    A date is its proleptic Gregorian ordinal ([date.toordinal()]), from
    1 for 1 January of year 1 to 3652059 for 31 December 9999;
    [date.weekday()] is [(toordinal() + 6) % 7], Monday being 0, and
    adding a [timedelta] of [n] days adds [n] to the ordinal or raises
    [OverflowError] when the sum leaves that range. *)

Module GarminTool.

Local Open Scope Z_scope.

Inductive day_name : Type :=
| monday | tuesday | wednesday | thursday | friday | saturday | sunday.

Definition day_map (d : day_name) : Z :=
  match d with
  | monday => 0 | tuesday => 1 | wednesday => 2 | thursday => 3
  | friday => 4 | saturday => 5 | sunday => 6
  end.

Definition weekday (ordinal : Z) : Z := (ordinal + 6) mod 7.

Definition days_ahead (today : Z) (day : day_name) : Z :=
  let target_day := day_map day in
  let days_ahead := target_day - weekday today in
  if days_ahead <=? 0 then days_ahead + 7 else days_ahead.

(** [range(n)] *)
Definition range (n : Z) : list Z := map Z.of_nat (List.seq 0 (Z.to_nat n)).

(** [datetime.max.toordinal()] *)
Definition max_ordinal : Z := 3652059.

(** [date + timedelta(days=n)] *)
Definition plus_days (date n : Z) : result Z :=
  if (1 <=? date + n) && (date + n <=? max_ordinal) then Ok (date + n)
  else Raise OverflowError.

(** The loop over [range(weeks)]: the dates asked for, in order, and the
    exception that ended the loop early, if any.  A failed request to
    the service is caught inside the loop; the date arithmetic is not. *)
Fixpoint schedule_loop (next_date : Z) (weeks : list Z)
  : list Z * option exn :=
  match weeks with
  | [] => ([], None)
  | i :: rest =>
      match plus_days next_date (7 * i) with
      | Ok schedule_date =>
          let (dates, e) := schedule_loop next_date rest in
          (schedule_date :: dates, e)
      | Raise e => ([], Some e)
      end
  end.

(** The dates [schedule_workout] asks the service for, in order, and the
    exception that makes the command exit early, if any. *)
Definition schedule_dates (today : Z) (day : day_name) (weeks : Z)
  : list Z * option exn :=
  match plus_days today (days_ahead today day) with
  | Ok next_date => schedule_loop next_date (range weeks)
  | Raise e => ([], Some e)
  end.

(** *** [create_workout], from a JSON array of exercises *)

(** An element of the [--exercises] array; any key may be missing. *)
Record json_exercise : Type := {
  je_name : option str;
  je_exercise : option str;
  je_sets : option Z;
  je_reps : option Z
}.

Section Create.
(** [fuzz.token_sort_ratio], before rounding, and the catalog of the
    module's [mapper] *)
Variable scorer : str -> str -> Q.
Variable exercise_map : ExerciseMapper.catalog.

(** The loop that fills [mapped_exercises]. *)
Fixpoint mapped_exercises (exercise_list : list json_exercise)
  : result (list GarminClient.strength_exercise) :=
  match exercise_list with
  | [] => Ok []
  | ex :: rest =>
      mc <- ExerciseMapper.map_exercise scorer exercise_map
              (GarminClient.get (je_name ex)
                                (GarminClient.get (je_exercise ex) [])) ;;
      ms <- mapped_exercises rest ;;
      Ok ({| GarminClient.se_name :=
               Some (ExerciseMapper.garmin_name (fst mc));
             GarminClient.se_category :=
               Some (ExerciseMapper.garmin_category (fst mc));
             GarminClient.se_sets := Some (GarminClient.get (je_sets ex) 3);
             GarminClient.se_reps := Some (GarminClient.get (je_reps ex) 10) |}
            :: ms)
  end.

(** [workout_data] of the JSON branch. *)
Definition workout_from_exercises (name : str)
           (exercise_list : list json_exercise)
  : result WorkoutParser.garmin_workout :=
  ms <- mapped_exercises exercise_list ;;
  GarminClient.build_strength_workout name ms [].
End Create.

(** *** [schedule_workout]: choosing the workout by name *)

(** An element of [gc.list_workouts()]. *)
Record workout_summary : Type := {
  workoutId : option Z;
  workoutName : option str
}.

(** [needle in hay] *)
Fixpoint contains (needle hay : str) : bool :=
  startswith needle hay
  || match hay with
     | [] => false
     | _ :: t => contains needle t
     end.

(** [workout_name.lower() in w.get("workoutName", "").lower()] *)
Definition matches_name (workout_name : str) (w : workout_summary) : bool :=
  contains (lower workout_name)
           (lower (GarminClient.get (workoutName w) [])).

(** [w.get("workoutName", "").lower() == workout_name.lower()] *)
Definition is_exact (workout_name : str) (w : workout_summary) : bool :=
  Text.eqb (lower (GarminClient.get (workoutName w) [])) (lower workout_name).

(** The workout that is scheduled, or [None] where the command reports
    no match or an ambiguous one and exits. *)
Definition select_workout (workouts : list workout_summary)
           (workout_name : str) : option workout_summary :=
  let matching := filter (matches_name workout_name) workouts in
  match matching with
  | [] => None
  | [w] => Some w
  | _ :: _ :: _ =>
      let exact := filter (is_exact workout_name) matching in
      match exact with
      | [] => None
      | w :: _ => Some w
      end
  end.

End GarminTool.

(** ** Inputs used in the statements below *)

Module Samples.

Import ExerciseMapper.

Definition PULL_UP : entry :=
  {| garmin_name := u "PULL_UP"; garmin_category := u "PULL_UP";
     muscles := Some [u "lats"; u "biceps"] |}.

Definition PUSH_UP : entry :=
  {| garmin_name := u "PUSH_UP"; garmin_category := u "PUSH_UP";
     muscles := Some [u "chest"; u "triceps"] |}.

Definition BENCH_PRESS : entry :=
  {| garmin_name := u "BARBELL_BENCH_PRESS"; garmin_category := u "BENCH_PRESS";
     muscles := Some [u "chest"] |}.

(** A catalog to which "push ups" was added before "pull ups". *)
Definition push_then_pull : catalog :=
  [(u "push ups", PUSH_UP); (u "pull ups", PULL_UP)].

Definition bench_only : catalog := [(u "bench press", BENCH_PRESS)].

End Samples.

(** ** Predicates of the specification *)

(** A catalog all of whose keys are fixed points of [_normalize_name]. *)
Definition normalized_keys (d : ExerciseMapper.catalog) : Prop :=
  Forall (fun k => ExerciseMapper._normalize_name k = k) (ExerciseMapper.keys d).

(** An empty or whitespace-only name. *)
Definition blank (name : str) : Prop := forallb isspace name = true.

(** The two shapes of a parsed exercise: a rep count and no duration
    with kind [Reps], or a duration and no rep count with kind
    [Duration]. *)
Definition well_shaped (e : WorkoutParser.exercise) : Prop :=
  (WorkoutParser.type e = WorkoutParser.Reps /\
   (exists r, WorkoutParser.reps e = Some r /\ (0 <= r)%Z) /\
   WorkoutParser.duration_seconds e = None) \/
  (WorkoutParser.type e = WorkoutParser.Duration /\
   (exists s, WorkoutParser.duration_seconds e = Some s /\ (0 <= s)%Z) /\
   WorkoutParser.reps e = None /\ WorkoutParser.reps_high e = None).


(** The same order on unrounded scores. *)
Definition desc_unrounded (a b : str * Q) : Prop := (snd b <= snd a)%Q.

(** The count that [to_garmin_format] hands to [float()] for an
    exercise: the duration for kind [Duration] (30 when missing), the
    rep count otherwise (10 when missing). *)
Definition end_count (e : WorkoutParser.exercise) : Z :=
  match WorkoutParser.type e with
  | WorkoutParser.Duration =>
      GarminClient.get (WorkoutParser.duration_seconds e) 30%Z
  | WorkoutParser.Reps => GarminClient.get (WorkoutParser.reps e) 10%Z
  end.

(** An integer that [float()] accepts: one below 2^1024 - 2^970 in
    magnitude, the midpoint between the largest double and 2^1024. *)
Definition convertible (n : Z) : Prop := (Z.abs n < 2 ^ 1024 - 2 ^ 970)%Z.

(** A parsed exercise as an element of the [exercises] argument of
    [build_strength_workout]: canonical name, category, sets and reps. *)
Definition as_strength (e : WorkoutParser.exercise)
  : GarminClient.strength_exercise :=
  {| GarminClient.se_name := Some (WorkoutParser.garmin_name e);
     GarminClient.se_category := Some (WorkoutParser.garmin_category e);
     GarminClient.se_sets := Some (WorkoutParser.sets e);
     GarminClient.se_reps := WorkoutParser.reps e |}.

(** A parsed exercise as an element of the [--exercises] array: its raw
    name, sets and reps. *)
Definition as_json (e : WorkoutParser.exercise) : GarminTool.json_exercise :=
  {| GarminTool.je_name := Some (WorkoutParser.raw_name e);
     GarminTool.je_exercise := None;
     GarminTool.je_sets := Some (WorkoutParser.sets e);
     GarminTool.je_reps := WorkoutParser.reps e |}.

(** A name free of special characters. *)
Definition plain (name : str) : Prop :=
  forallb (fun c => negb (ExerciseMapper.special c)) name = true.


(** ** Properties of the text functions *)

Module TextFacts.

Local Open Scope N_scope.

Lemma eqb_eq a b : Text.eqb a b = true <-> a = b.
Proof.
  unfold Text.eqb. destruct (list_eq_dec N.eq_dec a b); split; congruence.
Qed.

Lemma eqb_refl a : Text.eqb a a = true.
Proof. now apply eqb_eq. Qed.

Lemma eqb_neq a b : Text.eqb a b = false <-> a <> b.
Proof.
  unfold Text.eqb. destruct (list_eq_dec N.eq_dec a b); split; congruence.
Qed.

(** A string of whitespace strips to nothing. *)
Lemma lstrip_by_all p s : forallb p s = true -> lstrip_by p s = [].
Proof.
  induction s as [|c t IH]; simpl; [reflexivity|].
  intros H. apply andb_prop in H as [Hc Ht]. rewrite Hc. auto.
Qed.

Lemma strip_blank s : forallb isspace s = true -> strip s = [].
Proof.
  intros H. unfold strip. now rewrite (lstrip_by_all _ _ H).
Qed.

(** Whitespace has no case. *)
Lemma lower_char_space c : isspace c = true -> lower_char c = c.
Proof.
  unfold isspace, lower_char, isupper_ascii, between. intros H.
  destruct (65 <=? c) eqn:E1, (c <=? 90) eqn:E2; simpl;
    try (destruct (192 <=? c) eqn:E3, (c <=? 222) eqn:E4; simpl;
         try reflexivity);
    exfalso;
    repeat match goal with
           | H : (_ <=? _) = true |- _ => apply N.leb_le in H
           | H : (_ <=? _) = false |- _ => apply N.leb_gt in H
           end;
    repeat match type of H with
           | (_ || _) = true => apply orb_prop in H; destruct H as [H|H]
           end;
    try (apply andb_prop in H; destruct H as [Ha Hb];
         apply N.leb_le in Ha; apply N.leb_le in Hb; lia);
    try (apply N.eqb_eq in H; lia).
Qed.

Lemma lower_blank s : forallb isspace s = true -> lower s = s.
Proof.
  induction s as [|c t IH]; simpl; [reflexivity|].
  intros H. apply andb_prop in H as [Hc Ht].
  now rewrite (lower_char_space _ Hc), IH.
Qed.

End TextFacts.

(** ** Properties of the ranking *)

Module FloatFacts.

Import Float.
Local Open Scope Z_scope.

Lemma round_bounds x : Qfloor x <= round x <= Qfloor x + 1.
Proof.
  unfold round. destruct (_ ?= _)%Q; [destruct (Z.even _)| |]; lia.
Qed.

(** Rounding keeps the order of the scores. *)
Lemma round_mono x y : (x <= y)%Q -> round x <= round y.
Proof.
  intros H. pose proof (Qfloor_resp_le _ _ H) as Hf.
  destruct (Z.eq_dec (Qfloor x) (Qfloor y)) as [E|E].
  - unfold round. rewrite E.
    destruct (Qcompare_spec (x - inject_Z (Qfloor y)) (1 # 2)) as [H1|H1|H1];
    destruct (Qcompare_spec (y - inject_Z (Qfloor y)) (1 # 2)) as [H2|H2|H2];
    try destruct (Z.even _); try lia; exfalso; lra.
  - pose proof (round_bounds x). pose proof (round_bounds y). lia.
Qed.

Lemma round_nonneg x : (0 <= x)%Q -> 0 <= round x.
Proof. intros H. apply round_mono in H. exact H. Qed.

Lemma round_neg x : (x < 0)%Q -> round x <= 0.
Proof. intros H. apply Qlt_le_weak, round_mono in H. exact H. Qed.

(** Below 2^53 [float()] is exact. *)
Lemma float_of_int_exact n : Z.abs n < 2 ^ 53 -> float_of_int n = Ok n.
Proof.
  intros H. unfold float_of_int. cbv zeta.
  replace (Z.abs n <? 2 ^ 53) with true by (symmetry; now apply Z.ltb_lt).
  assert (H' : 2 ^ 53 < 2 ^ 1024) by (apply Z.pow_lt_mono_r; lia).
  replace (2 ^ 1024 <=? Z.abs n) with false
    by (symmetry; apply Z.leb_gt; lia).
  now rewrite Z.mul_comm, Z.abs_sgn.
Qed.

(** [float()] returns exactly for the integers below 2^1024 - 2^970 in
    magnitude; from there on the nearest double would be 2^1024. *)
Lemma float_of_int_range n :
  (exists x, float_of_int n = Ok x) <-> Z.abs n < 2 ^ 1024 - 2 ^ 970.
Proof.
  unfold float_of_int. cbv zeta.
  set (m := Z.abs n). assert (Hm : 0 <= m) by apply Z.abs_nonneg.
  clearbody m.
  set (P := 2 ^ 970).
  assert (HP : 0 < P) by (apply Z.pow_pos_nonneg; lia).
  assert (E1024 : 2 ^ 1024 = 2 ^ 54 * P)
    by (unfold P; rewrite <- Z.pow_add_r by lia; reflexivity).
  assert (E53 : 2 ^ 53 = 9007199254740992) by reflexivity.
  assert (E54 : 2 ^ 54 = 18014398509481984) by reflexivity.
  rewrite E1024, E54.
  destruct (m <? 2 ^ 53) eqn:Hsmall.
  { apply Z.ltb_lt in Hsmall.
    replace (18014398509481984 * P <=? m) with false
      by (symmetry; apply Z.leb_gt; nia).
    split; [intros _; nia | eauto]. }
  apply Z.ltb_ge in Hsmall.
  assert (Hpos : 0 < m) by lia.
  pose proof (Z.log2_spec m Hpos) as [Hlo Hhi].
  assert (HL : 53 <= Z.log2 m).
  { apply Z.log2_le_pow2; lia. }
  set (L := Z.log2 m) in *. clearbody L.
  set (s := L - 52).
  assert (Hs : 1 <= s) by (unfold s; lia).
  assert (H2s : 0 < 2 ^ s) by (apply Z.pow_pos_nonneg; lia).
  assert (EL : 2 ^ L = 2 ^ 52 * 2 ^ s)
    by (unfold s; rewrite <- Z.pow_add_r by lia; f_equal; lia).
  assert (EL1 : 2 ^ Z.succ L = 2 ^ 53 * 2 ^ s)
    by (unfold s; rewrite <- Z.pow_add_r by lia; f_equal; lia).
  assert (Ehalf : 2 ^ s = 2 * 2 ^ (s - 1)).
  { replace s with (1 + (s - 1)) at 1 by lia.
    rewrite Z.pow_add_r by lia. reflexivity. }
  assert (E52 : 2 ^ 52 = 4503599627370496) by reflexivity.
  rewrite EL in Hlo. rewrite EL1 in Hhi. rewrite E53 in *. rewrite E52 in *.
  pose proof (Z.div_mod m (2 ^ s) ltac:(lia)) as Hdm.
  pose proof (Z.mod_pos_bound m (2 ^ s) H2s) as Hr.
  set (q := m / 2 ^ s) in *. set (r := m mod 2 ^ s) in *.
  clearbody q r.
  set (h := 2 ^ (s - 1)) in *.
  assert (Hq : 4503599627370496 <= q < 9007199254740992) by nia.
  (* the exponent against 1023 *)
  destruct (Z.lt_trichotomy L 1023) as [Hlt|[Heq|Hgt]].
  - (* below 2^1023: never overflows *)
    assert (Hb : 2 ^ s * 2 <= 2 ^ 971).
    { replace (2 ^ s * 2) with (2 ^ (s + 1))
        by (rewrite Z.pow_add_r by lia; reflexivity).
      apply Z.pow_le_mono_r; unfold s; lia. }
    assert (E971 : 2 ^ 971 = 2 * P)
      by (unfold P; replace 971 with (1 + 970) by lia;
          rewrite Z.pow_add_r by lia; reflexivity).
    rewrite E971 in Hb.
    split; [intros _; nia|]. intros _.
    destruct (r <? h); [|destruct (h <? r); [|destruct (Z.even q)]];
      (match goal with
       | |- exists x, (if ?c then _ else _) = _ =>
           replace c with false by (symmetry; apply Z.leb_gt; nia)
       end); eauto.
  - (* between 2^1023 and 2^1024 *)
    assert (Es : 2 ^ s = 2 * P).
    { unfold s, P. rewrite Heq. replace (1023 - 52) with (1 + 970) by lia.
      rewrite Z.pow_add_r by lia. reflexivity. }
    assert (Eh : h = P) by (unfold h in *; lia).
    rewrite Es in *. rewrite Eh in *.
    destruct (r <? P) eqn:C1; [apply Z.ltb_lt in C1 | apply Z.ltb_ge in C1].
    + replace (18014398509481984 * P <=? q * (2 * P)) with false
        by (symmetry; apply Z.leb_gt; nia).
      split; [intros _; nia | eauto].
    + destruct (P <? r) eqn:C2;
        [apply Z.ltb_lt in C2 | apply Z.ltb_ge in C2].
      * destruct (Z.eq_dec q 9007199254740991) as [Eq|Nq].
        -- replace (18014398509481984 * P <=? (q + 1) * (2 * P)) with true
             by (symmetry; apply Z.leb_le; nia).
           split; [intros [x Hx]; discriminate | intros; exfalso; nia].
        -- replace (18014398509481984 * P <=? (q + 1) * (2 * P)) with false
             by (symmetry; apply Z.leb_gt; nia).
           split; [intros _; nia | eauto].
      * destruct (Z.eq_dec q 9007199254740991) as [Eq|Nq].
        -- subst q. cbn [Z.even].
           replace (18014398509481984 * P
                    <=? (9007199254740991 + 1) * (2 * P)) with true
             by (symmetry; apply Z.leb_le; nia).
           split; [intros [x Hx]; discriminate | intros; exfalso; nia].
        -- destruct (Z.even q);
             (match goal with
              | |- (exists x, (if ?c then _ else _) = _) <-> _ =>
                  replace c with false by (symmetry; apply Z.leb_gt; nia)
              end); (split; [intros _; nia | eauto]).
  - (* from 2^1024 on: always overflows *)
    assert (Hb : 2 ^ 1024 <= 2 ^ L) by (apply Z.pow_le_mono_r; lia).
    rewrite E1024, E54, EL in Hb.
    split; [|intros; exfalso; nia].
    intros [x Hx].
    destruct (r <? h); [|destruct (h <? r); [|destruct (Z.even q)]];
      (match type of Hx with
       | (if ?c then _ else _) = _ =>
           replace c with true in Hx by (symmetry; apply Z.leb_le; nia)
       end); discriminate.
Qed.

Lemma convertible_spec n :
  convertible n <-> exists x, float_of_int n = Ok x.
Proof. symmetry. apply float_of_int_range. Qed.

End FloatFacts.

(** ** Properties of the ranking *)

Module FuzzFacts.

Import Fuzz.
Local Open Scope Z_scope.

Lemma In_firstn {A} n (x : A) l : In x (firstn n l) -> In x l.
Proof.
  revert l. induction n as [|n IH]; intros [|a l]; simpl; try tauto.
  intros [H|H]; auto.
Qed.

Lemma insert_desc_In x y l : In y (insert_desc x l) -> y = x \/ In y l.
Proof.
  induction l as [|z l IH]; simpl.
  - intros [H|[]]; auto.
  - destruct (snd x ?= snd z)%Q; simpl; intros [H|H]; auto.
    destruct (IH H); auto.
Qed.

Lemma sort_desc_In y l : In y (sort_desc l) -> In y l.
Proof.
  induction l as [|x l IH]; simpl; [tauto|].
  intros H. apply insert_desc_In in H as [H|H]; auto.
Qed.

(** The best match is the first of the choices that reach the top
    score. *)
Lemma sort_desc_head l1 x l2 :
  Forall (fun y => (snd y < snd x)%Q) l1 ->
  Forall (fun y => (snd y <= snd x)%Q) l2 ->
  exists r, sort_desc (l1 ++ x :: l2) = x :: r.
Proof.
  intros H1 H2. induction H1 as [|a l1 Ha H1 IH].
  - change (sort_desc ([] ++ x :: l2)) with (insert_desc x (sort_desc l2)).
    destruct (sort_desc l2) as [|y r] eqn:E; cbn [insert_desc]; [eauto|].
    assert (Hy : (snd y <= snd x)%Q).
    { rewrite Forall_forall in H2. apply H2, sort_desc_In.
      rewrite E. now left. }
    destruct (Qcompare_spec (snd x) (snd y)) as [H|H|H]; eauto.
    exfalso. lra.
  - destruct IH as [r Hr].
    change (sort_desc ((a :: l1) ++ x :: l2))
      with (insert_desc a (sort_desc (l1 ++ x :: l2))).
    rewrite Hr. cbn [insert_desc].
    destruct (Qcompare_spec (snd a) (snd x)) as [H|H|H]; eauto;
      exfalso; lra.
Qed.

Section Scored.
Variable scorer : str -> str -> Q.

(** Every result is one of the choices, with its own rounded score. *)
Lemma extractBests_In q choices cutoff limit k c :
  In (k, c) (extractBests scorer q choices cutoff limit) ->
  In k choices /\ c = score scorer q k.
Proof.
  unfold extractBests. intros H.
  apply in_map_iff in H as [[k0 x] [E H]].
  apply In_firstn, sort_desc_In, filter_In in H. destruct H as [H _].
  apply in_map_iff in H as [k' [E' Hk]].
  simpl in E. inversion E; inversion E'; subst. auto.
Qed.

Lemma extractBests_first q before k after limit :
  (0 <= scorer q k)%Q ->
  Forall (fun k' => (scorer q k' < scorer q k)%Q) before ->
  Forall (fun k' => (scorer q k' <= scorer q k)%Q) after ->
  exists r,
    extractBests scorer q (before ++ k :: after) 0%Q (S limit)
    = (k, score scorer q k) :: r.
Proof.
  intros Hc Hb Ha. unfold extractBests.
  rewrite map_app, filter_app. simpl.
  replace (Qle_bool 0 (scorer q k)) with true
    by (symmetry; now apply Qle_bool_iff).
  set (f := fun m : str * Q => Qle_bool 0 (snd m)).
  set (g := fun c : str => (c, scorer q c)).
  destruct (@sort_desc_head (filter f (map g before)) (k, scorer q k)
                            (filter f (map g after))) as [r Hr].
  - apply Forall_forall. intros y Hy. apply filter_In in Hy as [Hy _].
    apply in_map_iff in Hy as [k' [<- Hk']]. simpl.
    rewrite Forall_forall in Hb. now apply Hb.
  - apply Forall_forall. intros y Hy. apply filter_In in Hy as [Hy _].
    apply in_map_iff in Hy as [k' [<- Hk']]. simpl.
    rewrite Forall_forall in Ha. now apply Ha.
  - rewrite Hr. simpl. eauto.
Qed.
End Scored.

End FuzzFacts.

(** ** Properties of the mapper *)

Module MapperFacts.

Import ExerciseMapper.
Local Open Scope Z_scope.

Lemma lookup_In k d : In k (keys d) -> exists e, lookup k d = Some e.
Proof.
  induction d as [|[k' v] d IH]; simpl; [tauto|].
  intros [H|H].
  - subst. rewrite TextFacts.eqb_refl. eauto.
  - destruct (Text.eqb k k'); eauto.
Qed.

Section Scored.
Variable scorer : str -> str -> Q.

(** An exact key is returned verbatim with confidence 100. *)
Lemma map_exercise_exact d name e :
  lookup (_normalize_name name) d = Some e ->
  map_exercise scorer d name = Ok (e, 100).
Proof. unfold map_exercise. now intros ->. Qed.

(** [map_exercise] never raises: the subscripted key comes from the
    mapping's own keys. *)
Lemma map_exercise_total d name :
  exists e c, map_exercise scorer d name = Ok (e, c).
Proof.
  unfold map_exercise.
  destruct (lookup (_normalize_name name) d) as [e|]; [eauto|].
  destruct d as [|p d']; [eauto|].
  set (d := p :: d').
  destruct (Fuzz.extractBests scorer (_normalize_name name) (keys d) 0%Q 3)
    as [|[k c] r] eqn:E; [eauto|].
  destruct (70 <=? c); [|eauto].
  assert (Hk : In k (keys d)).
  { eapply FuzzFacts.extractBests_In. rewrite E. now left. }
  apply lookup_In in Hk as [e He]. unfold subscript. rewrite He.
  simpl. eauto.
Qed.

(** Without an exact key and without a key scoring 70 or more, the
    result is the synthesized unknown entry. *)
Lemma map_exercise_unknown d name :
  lookup (_normalize_name name) d = None ->
  Forall (fun k => Fuzz.score scorer (_normalize_name name) k < 70) (keys d) ->
  map_exercise scorer d name = Ok (unknown name, 0).
Proof.
  intros Hl Hs. unfold map_exercise. rewrite Hl.
  destruct d as [|p d']; [reflexivity|].
  set (d := p :: d') in *.
  destruct (Fuzz.extractBests scorer (_normalize_name name) (keys d) 0%Q 3)
    as [|[k c] r] eqn:E; [reflexivity|].
  assert (Hk : In k (keys d) /\ c = Fuzz.score scorer (_normalize_name name) k).
  { eapply FuzzFacts.extractBests_In. rewrite E. now left. }
  destruct Hk as [Hk ->]. rewrite Forall_forall in Hs.
  specialize (Hs _ Hk).
  replace (70 <=? _) with false by (symmetry; apply Z.leb_gt; lia).
  reflexivity.
Qed.
End Scored.

End MapperFacts.

(** ** Claims about [ExerciseMapper] *)

Module MapperClaims.

Import ExerciseMapper Samples.
Local Open Scope Z_scope.

(** C2 (code defect).  The docstring of [map_exercise] promises
    confidence 100 for an exact match and a lower value for a fuzzy one.
    For the catalog holding only "bench press", the name "Press Bench"
    normalizes to "press bench", which is not a key, and the fuzzy branch
    still returns the entry with confidence 100. *)
Theorem C2_fuzzy_match_with_confidence_100 :
  _normalize_name (u "Press Bench") = u "press bench" /\
  lookup (u "press bench") bench_only = None /\
  map_exercise Fuzz.token_sort_ratio bench_only (u "Press Bench")
  = Ok (BENCH_PRESS, 100).
Proof. split; [|split]; vm_compute; reflexivity. Qed.

(** C3 (code defect).  [_normalize_name] collapses whitespace runs before
    it removes special characters, so removing a character that stood
    between two spaces leaves a double space that a second pass
    collapses: normalizing "a ! b" gives "a  b", and normalizing that
    gives "a b". *)
Theorem C3_normalize_twice_differs :
  _normalize_name (u "a ! b") = u "a  b" /\
  _normalize_name (_normalize_name (u "a ! b")) = u "a b" /\
  _normalize_name (_normalize_name (u "a ! b")) <> _normalize_name (u "a ! b").
Proof.
  split; [|split]; vm_compute; [reflexivity | reflexivity | discriminate].
Qed.

(** *** C4: the catalog invariant *)

Lemma assign_keys (P : str -> Prop) k v d :
  P k -> Forall P (keys d) -> Forall P (keys (assign k v d)).
Proof.
  intros Hk. induction d as [|[k' v'] d IH]; simpl; intros H.
  - constructor; auto.
  - inversion H; subst. destruct (Text.eqb k k'); simpl; constructor; auto.
Qed.

Lemma run_keys (P : str -> Prop) ops : forall d,
  Forall P (keys d) ->
  Forall (fun o => P (_normalize_name (added_name o))) ops ->
  Forall P (keys (fold_left apply ops d)).
Proof.
  induction ops as [|[n g c m] ops IH]; simpl; intros d Hd Hops; [assumption|].
  inversion Hops; subst. apply IH; [|assumption].
  unfold add_mapping. now apply assign_keys.
Qed.

(** C4, as stated, fails: a stored document is loaded as it is, so a key
    such as "Bench Press" enters the catalog unnormalized; and a name
    added as "a ! b" is stored under "a  b", which is not its own normal
    form. *)
Lemma C4_counterexample :
  ~ normalized_keys (run (Some [(u "Bench Press", BENCH_PRESS)]) []) /\
  ~ normalized_keys (run None [Add (u "a ! b") (u "X") (u "Y") None]).
Proof.
  split; intros H; apply Forall_inv in H; vm_compute in H; discriminate.
Qed.

(** C4 (amended).  If every key of the stored document is its own normal
    form, and every added name has a normal form that normalizes to
    itself, then after the load and any number of additions every key of
    the catalog equals its normal form. *)
Theorem C4_keys_stay_normalized stored ops :
  normalized_keys (_load_map stored) ->
  Forall (fun o => _normalize_name (_normalize_name (added_name o))
                   = _normalize_name (added_name o)) ops ->
  normalized_keys (run stored ops).
Proof.
  intros Hs Hops. unfold normalized_keys, run. now apply run_keys.
Qed.

Lemma C4_keys_stay_normalized_witness :
  normalized_keys (_load_map (Some [(u "pull ups", PULL_UP)])) /\
  normalized_keys
    (run (Some [(u "pull ups", PULL_UP)])
         [Add (u "Bench Press") (u "BARBELL_BENCH_PRESS") (u "BENCH_PRESS") None;
          Add (u "Pull  Ups") (u "PULL_UP") (u "PULL_UP") (Some [u "lats"])]).
Proof.
  split.
  - repeat constructor.
  - apply (@C4_keys_stay_normalized
             (Some [(u "pull ups", PULL_UP)])
             [Add (u "Bench Press") (u "BARBELL_BENCH_PRESS") (u "BENCH_PRESS") None;
              Add (u "Pull  Ups") (u "PULL_UP") (u "PULL_UP") (Some [u "lats"])]).
    + repeat constructor.
    + repeat constructor.
Defined.

(** *** C8: ties between best matches *)

(** C8, as stated, fails: in a catalog where "push ups" was inserted
    before "pull ups", the name "pu ups" has the same score against both
    keys, 600/7 before rounding and 86 after; "pull ups" sorts first,
    yet the entry of "push ups" is returned. *)
Lemma C8_counterexample :
  (Fuzz.token_sort_ratio (_normalize_name (u "pu ups")) (u "push ups")
   == 600 # 7)%Q /\
  (Fuzz.token_sort_ratio (_normalize_name (u "pu ups")) (u "pull ups")
   == 600 # 7)%Q /\
  Fuzz.score Fuzz.token_sort_ratio (_normalize_name (u "pu ups"))
             (u "push ups") = 86 /\
  Fuzz.score Fuzz.token_sort_ratio (_normalize_name (u "pu ups"))
             (u "pull ups") = 86 /\
  Text.leb (u "pull ups") (u "push ups") = true /\
  Text.leb (u "push ups") (u "pull ups") = false /\
  lookup (u "pull ups") push_then_pull = Some PULL_UP /\
  map_exercise Fuzz.token_sort_ratio push_then_pull (u "pu ups")
  = Ok (PUSH_UP, 86) /\
  map_exercise Fuzz.token_sort_ratio push_then_pull (u "pu ups")
  <> Ok (PULL_UP, 86).
Proof.
  split; [|split; [|split; [|split; [|split; [|split; [|split; [|split]]]]]]];
    vm_compute; try reflexivity; discriminate.
Qed.

(** The ranking is on the scores before rounding: against "calf raise"
    the keys "lateral raise" and "leg raises" both round to 70, and the
    later key wins with its higher unrounded score (70 against
    1600/23). *)
Example rounded_ties_are_ranked_before_rounding :
  let lateral_raise :=
    {| garmin_name := u "LATERAL_RAISE"; garmin_category := u "LATERAL_RAISE";
       muscles := Some [u "shoulders"] |} in
  let leg_raise :=
    {| garmin_name := u "LEG_RAISE"; garmin_category := u "LEG_RAISE";
       muscles := Some [u "abs"] |} in
  let d := [(u "lateral raise", lateral_raise); (u "leg raises", leg_raise)] in
  (Fuzz.token_sort_ratio (u "calf raise") (u "lateral raise") == 1600 # 23)%Q /\
  (Fuzz.token_sort_ratio (u "calf raise") (u "leg raises") == 70 # 1)%Q /\
  Fuzz.score Fuzz.token_sort_ratio (u "calf raise") (u "lateral raise") = 70 /\
  Fuzz.score Fuzz.token_sort_ratio (u "calf raise") (u "leg raises") = 70 /\
  map_exercise Fuzz.token_sort_ratio d (u "calf raise") = Ok (leg_raise, 70).
Proof. repeat split; vm_compute; reflexivity. Qed.

(** C8 (amended).  When the normalized name is not a key and several
    keys reach the best score, taken before rounding, and that score
    rounds to at least 70, the entry returned is that of the key that
    comes first in the catalog's own order (the insertion order of the
    dictionary), with the rounded score as confidence. *)
Theorem C8_first_best_key_in_catalog_order
        (scorer : str -> str -> Q) d name before k after e :
  keys d = before ++ k :: after ->
  lookup (_normalize_name name) d = None ->
  70 <= Fuzz.score scorer (_normalize_name name) k ->
  Forall (fun k' => (scorer (_normalize_name name) k'
                     < scorer (_normalize_name name) k)%Q) before ->
  Forall (fun k' => (scorer (_normalize_name name) k'
                     <= scorer (_normalize_name name) k)%Q) after ->
  lookup k d = Some e ->
  map_exercise scorer d name
  = Ok (e, Fuzz.score scorer (_normalize_name name) k).
Proof.
  intros Hkeys Hl Hc Hb Ha He. unfold map_exercise. rewrite Hl.
  destruct d as [|p d']; [destruct before; discriminate|].
  rewrite Hkeys.
  destruct (@FuzzFacts.extractBests_first scorer (_normalize_name name)
              before k after 2)
    as [r Hr]; auto.
  { destruct (Qlt_le_dec (scorer (_normalize_name name) k) 0) as [H|H];
      [|exact H].
    apply FloatFacts.round_neg in H. unfold Fuzz.score in Hc. lia. }
  rewrite Hr.
  replace (70 <=? _) with true by (symmetry; apply Z.leb_le; lia).
  unfold subscript. rewrite He. reflexivity.
Qed.

Lemma C8_first_best_key_in_catalog_order_witness :
  map_exercise Fuzz.token_sort_ratio push_then_pull (u "pu ups")
  = Ok (PUSH_UP,
        Fuzz.score Fuzz.token_sort_ratio (_normalize_name (u "pu ups"))
                   (u "push ups")).
Proof.
  apply (@C8_first_best_key_in_catalog_order
           Fuzz.token_sort_ratio push_then_pull (u "pu ups")
           [] (u "push ups") [u "pull ups"] PUSH_UP).
  - reflexivity.
  - vm_compute. reflexivity.
  - vm_compute. discriminate.
  - constructor.
  - repeat constructor. vm_compute. discriminate.
  - vm_compute. reflexivity.
Defined.

(** *** C9: empty and whitespace-only names *)

Lemma normalize_blank name : blank name -> _normalize_name name = [].
Proof.
  intros H. unfold _normalize_name.
  rewrite (TextFacts.lower_blank _ H), (TextFacts.strip_blank _ H).
  reflexivity.
Qed.

Lemma remove_special_blank name : blank name -> remove_special name = name.
Proof.
  unfold blank, remove_special.
  induction name as [|c t IH]; simpl; [reflexivity|].
  intros H. apply andb_prop in H as [Hc Ht]. unfold special at 1.
  rewrite Hc, orb_true_r. simpl. now rewrite IH.
Qed.

Lemma sub_runs_all p by_ s : forallb p s = true -> sub_runs p by_ true s = [].
Proof.
  induction s as [|c t IH]; simpl; [reflexivity|].
  intros H. apply andb_prop in H as [Hc Ht]. rewrite Hc. auto.
Qed.

Lemma to_garmin_format_blank name :
  blank name ->
  _to_garmin_format name = match name with [] => [] | _ :: _ => u "_" end.
Proof.
  intros H. unfold _to_garmin_format. rewrite (remove_special_blank H).
  destruct name as [|c t]; [reflexivity|].
  unfold blank in H. simpl in H. apply andb_prop in H as [Hc Ht].
  simpl. rewrite Hc. simpl. rewrite sub_runs_all; [reflexivity|].
  clear Hc. induction t as [|d t IH]; simpl in *; [reflexivity|].
  apply andb_prop in Ht as [Hd Ht]. now rewrite Hd, IH.
Qed.

(** C9, as stated, fails once the catalog has an entry under the empty
    key, which [add_mapping] creates for a name made only of special
    characters: a whitespace-only name then resolves to that entry with
    confidence 100. *)
Lemma C9_counterexample :
  blank (u "   ") /\
  map_exercise Fuzz.token_sort_ratio
               (add_mapping push_then_pull (u "???") (u "REST") (u "OTHER") None)
               (u "   ")
  = Ok ({| garmin_name := u "REST"; garmin_category := u "OTHER";
           muscles := Some [] |}, 100).
Proof. split; vm_compute; reflexivity. Qed.

(** C9 (amended).  For every empty or whitespace-only name, when the
    catalog has no entry under the empty key and no key scores 70 or
    more against the empty string, [map_exercise] returns without
    raising the synthesized entry with confidence 0: category "UNKNOWN",
    no muscles, and canonical name "" for the empty name and "_" for a
    whitespace-only one. *)
Theorem C9_blank_name_is_unknown (scorer : str -> str -> Q) d name :
  blank name ->
  lookup [] d = None ->
  Forall (fun k => Fuzz.score scorer [] k < 70) (keys d) ->
  map_exercise scorer d name
  = Ok ({| garmin_name := match name with [] => [] | _ :: _ => u "_" end;
           garmin_category := u "UNKNOWN";
           muscles := Some [] |}, 0).
Proof.
  intros Hb Hl Hs.
  rewrite MapperFacts.map_exercise_unknown;
    rewrite ?(normalize_blank Hb); auto.
  unfold unknown. now rewrite (to_garmin_format_blank Hb).
Qed.

Lemma C9_blank_name_is_unknown_witness :
  blank (u "  ") /\
  map_exercise Fuzz.token_sort_ratio push_then_pull (u "  ")
  = Ok ({| garmin_name := u "_"; garmin_category := u "UNKNOWN";
           muscles := Some [] |}, 0).
Proof.
  split.
  - reflexivity.
  - apply (@C9_blank_name_is_unknown
             Fuzz.token_sort_ratio push_then_pull (u "  ")).
    + reflexivity.
    + reflexivity.
    + repeat constructor.
Defined.

End MapperClaims.

(** ** Properties of the parser *)

Module ParserFacts.

Import WorkoutParser.
Local Open Scope Z_scope.

Section Parsing.
Variable scorer : str -> str -> Q.
Variable d : ExerciseMapper.catalog.

(** A line that some block accepts becomes a record holding that
    block's fields and the mapper's answer for its name. *)
Lemma parse_exercise_line_fields line f :
  skipped (strip line) = false ->
  first_result rules (strip line) = Some f ->
  exists m c,
    ExerciseMapper.map_exercise scorer d (f_raw_name f) = Ok (m, c) /\
    parse_exercise_line scorer d line = Ok (Some (resolved f m c)).
Proof.
  intros Hs Hf. unfold parse_exercise_line. cbv zeta. rewrite Hs, Hf.
  destruct (MapperFacts.map_exercise_total scorer d (f_raw_name f))
    as (m & c & E).
  rewrite E. exists m, c. split; reflexivity.
Qed.

(** [parse_exercise_line] never raises. *)
Lemma parse_exercise_line_total line :
  exists r, parse_exercise_line scorer d line = Ok r.
Proof.
  unfold parse_exercise_line. cbv zeta.
  destruct (skipped (strip line)); [eauto|].
  destruct (first_result rules (strip line)) as [f|]; [|eauto].
  destruct (MapperFacts.map_exercise_total scorer d (f_raw_name f))
    as (m & c & E).
  rewrite E. simpl. eauto.
Qed.

Lemma scan_cons line rest sec exs ws :
  scan scorer d (line :: rest) sec exs ws
  = if endswith (u ":") (strip line) || startswith (u "##") (strip line)
    then scan scorer d rest (Some (header_name (strip line))) exs ws
    else
      parsed <- parse_exercise_line scorer d (strip_marker (strip line)) ;;
      match parsed with
      | Some e =>
          scan scorer d rest sec (exs ++ [with_section e sec])
               (if low_confidence (with_section e sec)
                then ws ++ [warning (with_section e sec)] else ws)
      | None => scan scorer d rest sec exs ws
      end.
Proof. reflexivity. Qed.


(** A text of one line that is not a header. *)
Lemma parse_workout_one_line text name line e :
  split_chr 10%N (strip text) = [line] ->
  endswith (u ":") (strip line) || startswith (u "##") (strip line) = false ->
  parse_exercise_line scorer d (strip_marker (strip line)) = Ok (Some e) ->
  parse_workout scorer d text name
  = Ok {| name := name;
          exercises := [with_section e None];
          exercise_count := 1;
          warnings := if low_confidence (with_section e None)
                      then [warning (with_section e None)] else [] |}.
Proof.
  intros Hl Hh He. unfold parse_workout. cbv zeta. rewrite Hl.
  rewrite scan_cons, Hh, He. simpl.
  destruct (low_confidence (with_section e None)); reflexivity.
Qed.
End Parsing.


(** *** The step structure *)

(** What [repeat_group_of] returns, when it returns. *)
Lemma repeat_group_of_inv e n g :
  repeat_group_of e n = Ok g ->
  group_stepOrder g = n /\
  numberOfIterations g = sets e /\
  exists work rest,
    workoutSteps g = [work; rest] /\
    stepOrder work = n + 1 /\
    stepOrder rest = n + 2 /\
    stepType work = {| id := 3; key := u "interval" |} /\
    stepType rest = {| id := 5; key := u "rest" |} /\
    exercise_ref work = Some (garmin_category e, garmin_name e) /\
    endCondition work
    = match type e with
      | Reps => {| id := 10; key := u "reps" |}
      | Duration => {| id := 2; key := u "time" |}
      end /\
    Float.float_of_int (end_count e) = Ok (endConditionValue work).
Proof.
  unfold repeat_group_of, end_count, GarminClient.get.
  destruct (type e);
    destruct (Float.float_of_int _) as [x|x]; cbn [bind];
    intros H; inversion H; subst; clear H; cbn;
    (split; [reflexivity|]); (split; [reflexivity|]);
    do 2 eexists; repeat (split; [reflexivity|]); reflexivity.
Qed.

(** [repeat_group_of] returns when [float()] accepts the count. *)
Lemma repeat_group_of_total e n :
  convertible (end_count e) -> exists g, repeat_group_of e n = Ok g.
Proof.
  intros H. apply FloatFacts.convertible_spec in H as [x Hx].
  unfold repeat_group_of, end_count, GarminClient.get in *.
  destruct (type e); rewrite Hx; cbn [bind]; eauto.
Qed.

Lemma steps_from_total es : forall n,
  Forall (fun e => convertible (end_count e)) es ->
  exists gs, steps_from n es = Ok gs.
Proof.
  induction es as [|e es IH]; intros n H; cbn [steps_from]; [eauto|].
  inversion H as [|? ? He Hes]; subst.
  destruct (@repeat_group_of_total e n He) as [g ->].
  destruct (IH (n + 3) Hes) as [gs ->]. cbn [bind]. eauto.
Qed.

Lemma steps_from_inv es : forall n gs,
  steps_from n es = Ok gs ->
  Forall2 (fun e g => exists m, repeat_group_of e m = Ok g) es gs.
Proof.
  induction es as [|e es IH]; intros n gs H; cbn [steps_from] in H.
  - inversion H. constructor.
  - destruct (repeat_group_of e n) as [g|] eqn:Eg; [|discriminate].
    cbn [bind] in H.
    destruct (steps_from (n + 3) es) as [gs'|] eqn:Es; [|discriminate].
    cbn [bind] in H. inversion H; subst.
    constructor; [eauto | eapply IH; eassumption].
Qed.

Lemma step_orders_steps_from es : forall n gs,
  steps_from (Z.of_nat n) es = Ok gs ->
  step_orders gs = map Z.of_nat (List.seq n (3 * length es)).
Proof.
  induction es as [|e es IH]; intros n gs H; cbn [steps_from] in H.
  - inversion H. reflexivity.
  - destruct (repeat_group_of e (Z.of_nat n)) as [g|] eqn:Eg; [|discriminate].
    cbn [bind] in H.
    destruct (steps_from (Z.of_nat n + 3) es) as [gs'|] eqn:Es;
      [|discriminate].
    cbn [bind] in H. inversion H; subst. clear H.
    cbn [length].
    replace (3 * S (length es))%nat with (S (S (S (3 * length es)))) by lia.
    cbn [List.seq map]. unfold step_orders in *. cbn [flat_map].
    replace (Z.of_nat n + 3) with (Z.of_nat (S (S (S n)))) in Es by lia.
    rewrite (IH _ _ Es).
    apply repeat_group_of_inv in Eg
      as (Hg & _ & work & rest & Hw & H1 & H2 & _).
    rewrite Hg, Hw. cbn [map List.app]. rewrite H1, H2.
    repeat (f_equal; try lia).
Qed.

Lemma seq_increasing k : forall n,
  StronglySorted Z.lt (map Z.of_nat (List.seq n k)).
Proof.
  induction k as [|k IH]; intros n; simpl; constructor; [apply IH|].
  apply Forall_forall. intros z Hz.
  apply in_map_iff in Hz as [m [<- Hm]]. apply in_seq in Hm. lia.
Qed.

End ParserFacts.

(** ** Claims about [WorkoutParser] *)

Module ParserClaims.

Import WorkoutParser Samples.
Local Open Scope Z_scope.

(** C1 (code defect).  The comments of [workout_parser.py] give
    "2×30 sec Dead hang" as the example of the sets-duration-name
    pattern, but the sets-reps-name pattern is tried first and matches
    the line with "sec Dead hang" as the name.  Whatever the catalog, the
    workout has one exercise of kind [Reps] with 2 sets and 30 reps, no
    duration, and raw name "sec Dead hang". *)
Theorem C1_duration_line_is_read_as_reps
        (scorer : str -> str -> Q) (d : ExerciseMapper.catalog) (name : str) :
  exists w e,
    parse_workout scorer d (u "2×30 sec Dead hang") name = Ok w /\
    exercises w = [e] /\
    type e = Reps /\ sets e = 2 /\ reps e = Some 30 /\
    duration_seconds e = None /\ raw_name e = u "sec Dead hang".
Proof.
  set (line := u "2×30 sec Dead hang").
  set (f := {| f_raw_name := u "sec Dead hang"; f_sets := 2;
               f_reps := Some 30; f_reps_high := None;
               f_duration_seconds := None; f_type := Reps |}).
  destruct (@ParserFacts.parse_exercise_line_fields
              scorer d (strip_marker (strip line)) f)
    as (m & c & _ & E); [vm_compute; reflexivity | vm_compute; reflexivity |].
  eexists. exists (with_section (resolved f m c) None). split.
  - apply (@ParserFacts.parse_workout_one_line scorer d line name line).
    + vm_compute. reflexivity.
    + vm_compute. reflexivity.
    + exact E.
  - repeat (split; [reflexivity|]). reflexivity.
Qed.

(** The same line against the sample catalog: canonical name
    "SEC_DEAD_HANG", category "UNKNOWN", confidence 0, one warning. *)
Example dead_hang_line_in_sample_catalog :
  parse_workout Fuzz.token_sort_ratio push_then_pull
                (u "2×30 sec Dead hang") (u "Workout")
  = Ok {| name := u "Workout";
          exercises :=
            [ {| raw_name := u "sec Dead hang"; sets := 2; reps := Some 30;
                 reps_high := None; duration_seconds := None; type := Reps;
                 garmin_name := u "SEC_DEAD_HANG";
                 garmin_category := u "UNKNOWN"; muscles := [];
                 mapping_confidence := 0; section := None |} ];
          exercise_count := 1;
          warnings :=
            [ u "Low confidence mapping for 'sec Dead hang' -> 'SEC_DEAD_HANG' (0%)" ] |}.
Proof. vm_compute. reflexivity. Qed.

(** *** C5: which lines produce a record *)




(** *** C6: warnings *)


(** *** C7: the step structure *)

(** C7, as stated, fails: [to_garmin_format] passes every count through
    [float()], which raises [OverflowError] from about 1.8e308 on.  The
    one-line text "1x999...9 Squat" with 400 nines parses to a workout
    with one exercise, for which no step structure is returned. *)
Lemma C7_counterexample :
  let text := u "1x" ++ List.repeat 57%N 400 ++ u " Squat" in
  exists w,
    parse_workout Fuzz.token_sort_ratio Samples.push_then_pull text (u "W")
    = Ok w /\
    length (exercises w) = 1%nat /\
    to_garmin_format w = Raise OverflowError.
Proof.
  eexists. split; [vm_compute; reflexivity|].
  split; vm_compute; reflexivity.
Qed.

Lemma steps_from_groups es : forall n gs,
  steps_from n es = Ok gs ->
  Forall2 (fun e g =>
             numberOfIterations g = sets e /\
             exists work rest,
               workoutSteps g = [work; rest] /\
               stepType work = {| id := 3; key := u "interval" |} /\
               stepType rest = {| id := 5; key := u "rest" |})
          es gs.
Proof.
  intros n gs H. apply ParserFacts.steps_from_inv in H.
  eapply Forall2_impl; [|exact H]. cbv beta.
  intros e g [m Hg].
  apply ParserFacts.repeat_group_of_inv in Hg
    as (_ & Hs & work & rest & Hw & _ & _ & H1 & H2 & _).
  split; [exact Hs|]. exists work, rest. auto.
Qed.

(** C7 (amended).  For a workout with K exercises whose counts [float()]
    accepts (the duration of an exercise of kind [Duration], the rep
    count of any other), [to_garmin_format] returns, and emits K repeat
    groups; the i-th has the i-th exercise's sets as its number of
    iterations and holds one interval step followed by one rest step;
    and the step-order numbers, read group by group, are 1, 2, ..., 3K,
    hence strictly increasing with no number shared between groups. *)
Theorem C7_one_repeat_group_per_exercise (w : workout) :
  Forall (fun e => convertible (end_count e)) (exercises w) ->
  exists garmin,
    to_garmin_format w = Ok garmin /\
    let gs := segmentSteps garmin in
    length gs = length (exercises w) /\
    Forall2 (fun e g =>
               numberOfIterations g = sets e /\
               exists work rest,
                 workoutSteps g = [work; rest] /\
                 stepType work = {| id := 3; key := u "interval" |} /\
                 stepType rest = {| id := 5; key := u "rest" |})
            (exercises w) gs /\
    step_orders gs = map Z.of_nat (List.seq 1 (3 * length (exercises w))) /\
    StronglySorted Z.lt (step_orders gs).
Proof.
  intros Hc. unfold to_garmin_format.
  destruct (@ParserFacts.steps_from_total (exercises w) 1 Hc) as [gs E].
  rewrite E. cbn [bind]. eexists. split; [reflexivity|].
  cbn [segmentSteps].
  pose proof (@steps_from_groups _ _ _ E) as HF.
  pose proof (@ParserFacts.step_orders_steps_from (exercises w) 1%nat gs E) as HO.
  split; [symmetry; eapply Forall2_length; exact HF|].
  split; [exact HF|]. split; [exact HO|].
  rewrite HO. apply ParserFacts.seq_increasing.
Qed.

Lemma C7_one_repeat_group_per_exercise_witness :
  exists garmin,
    to_garmin_format
      {| name := u "Pull day";
         exercises :=
           [ {| raw_name := u "Pull ups"; sets := 4; reps := Some 8;
                reps_high := None; duration_seconds := None;
                type := Reps; garmin_name := u "PULL_UP";
                garmin_category := u "PULL_UP";
                muscles := [u "lats"; u "biceps"];
                mapping_confidence := 100; section := None |};
             {| raw_name := u "Dead hang"; sets := 2; reps := None;
                reps_high := None; duration_seconds := Some 30;
                type := Duration; garmin_name := u "DEAD_HANG";
                garmin_category := u "UNKNOWN"; muscles := [];
                mapping_confidence := 0; section := None |} ];
         exercise_count := 2; warnings := [] |}
    = Ok garmin /\
    map numberOfIterations (segmentSteps garmin) = [4; 2] /\
    step_orders (segmentSteps garmin) = [1; 2; 3; 4; 5; 6].
Proof.
  destruct (@C7_one_repeat_group_per_exercise
              {| name := u "Pull day";
                 exercises :=
                   [ {| raw_name := u "Pull ups"; sets := 4; reps := Some 8;
                        reps_high := None; duration_seconds := None;
                        type := Reps; garmin_name := u "PULL_UP";
                        garmin_category := u "PULL_UP";
                        muscles := [u "lats"; u "biceps"];
                        mapping_confidence := 100; section := None |};
                     {| raw_name := u "Dead hang"; sets := 2; reps := None;
                        reps_high := None; duration_seconds := Some 30;
                        type := Duration; garmin_name := u "DEAD_HANG";
                        garmin_category := u "UNKNOWN"; muscles := [];
                        mapping_confidence := 0; section := None |} ];
                 exercise_count := 2; warnings := [] |})
    as (garmin & E & _ & HF & HO & _).
  - repeat constructor; vm_compute; reflexivity.
  - exists garmin. split; [exact E|]. split; [|exact HO].
    clear E HO. cbv zeta in HF. cbn [exercises] in HF.
    inversion HF as [|? g1 ? r1 [Hi1 _] HF1]; subst.
    inversion HF1 as [|? g2 ? r2 [Hi2 _] HF2]; subst.
    inversion HF2; subst. cbn [map]. now rewrite Hi1, Hi2.
Defined.

(** *** C10: the name-then-duration block *)



End ParserClaims.

(** ** Further properties of the ranking *)

Module RankingFacts.

Import Fuzz.
Local Open Scope Z_scope.

Lemma In_insert_desc x y l : y = x \/ In y l -> In y (insert_desc x l).
Proof.
  induction l as [|z l IH]; simpl.
  - intros [H|[]]; auto.
  - destruct (snd x ?= snd z)%Q; simpl; intros [H|[H|H]]; auto.
Qed.

Lemma In_sort_desc y l : In y l -> In y (sort_desc l).
Proof.
  induction l as [|x l IH]; simpl; [tauto|].
  intros [H|H]; apply In_insert_desc; auto.
Qed.

Lemma insert_desc_sorted x l :
  StronglySorted desc_unrounded l ->
  StronglySorted desc_unrounded (insert_desc x l).
Proof.
  induction 1 as [|z l Hs IH Hz]; cbn [insert_desc].
  - repeat constructor.
  - destruct (Qcompare_spec (snd x) (snd z)) as [E|E|E].
    + constructor; [now constructor|].
      constructor; [unfold desc_unrounded; lra|].
      apply Forall_forall. intros y Hy. rewrite Forall_forall in Hz.
      specialize (Hz _ Hy). unfold desc_unrounded in *. lra.
    + constructor; [assumption|].
      apply Forall_forall. intros y Hy.
      apply FuzzFacts.insert_desc_In in Hy as [->|Hy].
      * unfold desc_unrounded. lra.
      * rewrite Forall_forall in Hz. now apply Hz.
    + constructor; [now constructor|].
      constructor; [unfold desc_unrounded; lra|].
      apply Forall_forall. intros y Hy. rewrite Forall_forall in Hz.
      specialize (Hz _ Hy). unfold desc_unrounded in *. lra.
Qed.

Lemma sort_desc_sorted l : StronglySorted desc_unrounded (sort_desc l).
Proof.
  induction l as [|x l IH]; simpl; [constructor|].
  now apply insert_desc_sorted.
Qed.





(** The first result scores at least as high as every choice that
    passes the cutoff. *)
Lemma sort_desc_head_max l x r :
  sort_desc l = x :: r -> Forall (fun y => (snd y <= snd x)%Q) l.
Proof.
  intros E. apply Forall_forall. intros y Hy.
  apply In_sort_desc in Hy. rewrite E in Hy.
  pose proof (sort_desc_sorted l) as Hs. rewrite E in Hs.
  inversion Hs as [|? ? ? Hall]; subst.
  destruct Hy as [<-|Hy]; [apply Qle_refl|].
  rewrite Forall_forall in Hall. now apply Hall.
Qed.

Section Scored.
Variable scorer : str -> str -> Q.

Lemma extractBests_head_max q choices limit k c r :
  extractBests scorer q choices 0%Q limit = (k, c) :: r ->
  0 <= c /\ Forall (fun k' => score scorer q k' <= c) choices.
Proof.
  unfold extractBests. intros E.
  destruct (sort_desc _) as [|x s] eqn:S in E;
    [destruct limit; discriminate|].
  destruct limit as [|n]; [discriminate|]. simpl in E.
  inversion E; subst k c. clear E.
  pose proof (sort_desc_head_max _ S) as Hmax.
  assert (Hin : In x (sort_desc
            (filter (fun m : str * Q => Qle_bool 0 (snd m))
                    (map (fun c0 => (c0, scorer q c0)) choices))))
    by (rewrite S; now left).
  apply FuzzFacts.sort_desc_In, filter_In in Hin as [_ Hc].
  apply Qle_bool_iff in Hc.
  pose proof (FloatFacts.round_nonneg Hc) as Hc'.
  split; [assumption|].
  apply Forall_forall. intros k' Hk'. unfold score.
  destruct (Qlt_le_dec (scorer q k') 0) as [Hneg|Hpos].
  - apply FloatFacts.round_neg in Hneg. lia.
  - apply FloatFacts.round_mono.
    rewrite Forall_forall in Hmax.
    apply (Hmax (k', scorer q k')). apply filter_In. split.
    + apply in_map_iff. eauto.
    + now apply Qle_bool_iff.
Qed.

(** No result means that no choice reached the cutoff. *)
Lemma extractBests_nil q choices limit :
  extractBests scorer q choices 0%Q (S limit) = [] ->
  Forall (fun k' => score scorer q k' <= 0) choices.
Proof.
  unfold extractBests. intros E.
  destruct (sort_desc _) as [|x s] eqn:S in E; [|discriminate].
  apply Forall_forall. intros k' Hk'. unfold score.
  destruct (Qlt_le_dec (scorer q k') 0) as [Hneg|Hpos];
    [now apply FloatFacts.round_neg|].
  assert (Hin : In (k', scorer q k') (sort_desc
            (filter (fun m : str * Q => Qle_bool 0 (snd m))
                    (map (fun c0 => (c0, scorer q c0)) choices)))).
  { apply In_sort_desc, filter_In. split.
    - apply in_map_iff. eauto.
    - now apply Qle_bool_iff. }
  rewrite S in Hin. destruct Hin.
Qed.

(** The limit only truncates: the first result does not depend on it. *)
Lemma extractBests_head_limit q choices n m :
  hd_error (extractBests scorer q choices 0%Q (S n))
  = hd_error (extractBests scorer q choices 0%Q (S m)).
Proof.
  unfold extractBests. now destruct (sort_desc _).
Qed.
End Scored.

End RankingFacts.

(** ** Further properties of [ExerciseMapper] *)

Module MapperExtras.

Import ExerciseMapper Samples.
Local Open Scope Z_scope.

Lemma lookup_assign_same k v d : lookup k (assign k v d) = Some v.
Proof.
  induction d as [|[k' v'] d IH]; simpl.
  - now rewrite TextFacts.eqb_refl.
  - destruct (Text.eqb k k') eqn:E; simpl.
    + now rewrite TextFacts.eqb_refl.
    + now rewrite E.
Qed.

Lemma lookup_assign_other k k' v d :
  k' <> k -> lookup k' (assign k v d) = lookup k' d.
Proof.
  intros Hne. apply TextFacts.eqb_neq in Hne.
  induction d as [|[k0 v0] d IH]; simpl.
  - now rewrite Hne.
  - destruct (Text.eqb k k0) eqn:E; simpl.
    + apply TextFacts.eqb_eq in E. subst k0. now rewrite Hne.
    + now rewrite IH.
Qed.

Lemma keys_assign k v d :
  keys (assign k v d)
  = match lookup k d with
    | Some _ => keys d
    | None => keys d ++ [k]
    end.
Proof.
  induction d as [|[k0 v0] d IH]; simpl; [reflexivity|].
  destruct (Text.eqb k k0) eqn:E; simpl.
  - apply TextFacts.eqb_eq in E. now subst.
  - rewrite IH. now destruct (lookup k d).
Qed.

(** X1.  A name resolves to what was just added under it: after
    [add_mapping] for [name], [map_exercise] on the same name returns
    the new entry with confidence 100, whatever the catalog held. *)
Theorem add_then_resolve
        (scorer : str -> str -> Q) d name gname category ms :
  map_exercise scorer (add_mapping d name gname category ms) name
  = Ok ({| garmin_name := gname; garmin_category := category;
           muscles := Some match ms with Some l => l | None => [] end |},
        100).
Proof.
  apply MapperFacts.map_exercise_exact. unfold add_mapping.
  apply lookup_assign_same.
Qed.

(** X2.  Adding a mapping does not disturb the exact matches of other
    names: a name that resolved exactly before, and whose normal form
    differs from that of the added name, resolves to the same entry with
    confidence 100 afterwards. *)
Theorem add_keeps_other_exact_matches
        (scorer : str -> str -> Q) d name gname category ms other e :
  lookup (_normalize_name other) d = Some e ->
  _normalize_name other <> _normalize_name name ->
  map_exercise scorer (add_mapping d name gname category ms) other
  = Ok (e, 100).
Proof.
  intros He Hne. apply MapperFacts.map_exercise_exact. unfold add_mapping.
  now rewrite lookup_assign_other.
Qed.

Lemma add_keeps_other_exact_matches_witness :
  map_exercise Fuzz.token_sort_ratio
               (add_mapping push_then_pull (u "Bench Press")
                            (u "BARBELL_BENCH_PRESS") (u "BENCH_PRESS") None)
               (u "Pull Ups")
  = Ok (PULL_UP, 100).
Proof.
  apply (@add_keeps_other_exact_matches
           Fuzz.token_sort_ratio push_then_pull (u "Bench Press")
           (u "BARBELL_BENCH_PRESS") (u "BENCH_PRESS") None
           (u "Pull Ups") PULL_UP).
  - vm_compute. reflexivity.
  - vm_compute. discriminate.
Defined.

(** X3.  [add_mapping] keeps the order of the keys: a name whose normal
    form is already a key leaves the key list as it is (the entry is
    replaced in place), and a new normal form goes to the end. *)
Theorem add_mapping_keys d name gname category ms :
  list_exercises (add_mapping d name gname category ms)
  = match lookup (_normalize_name name) d with
    | Some _ => list_exercises d
    | None => list_exercises d ++ [_normalize_name name]
    end.
Proof. unfold list_exercises, add_mapping. apply keys_assign. Qed.

Lemma map_exercise_outcomes_aux (scorer : str -> str -> Q) d name :
  exists e c,
    map_exercise scorer d name = Ok (e, c) /\
    ((lookup (_normalize_name name) d = Some e /\ c = 100) \/
     (lookup (_normalize_name name) d = None /\ 70 <= c /\
      (exists k, In k (keys d) /\ lookup k d = Some e /\
                 c = Fuzz.score scorer (_normalize_name name) k) /\
      Forall (fun k' => Fuzz.score scorer (_normalize_name name) k' <= c)
             (keys d)) \/
     (lookup (_normalize_name name) d = None /\ c = 0 /\
      e = unknown name /\
      Forall (fun k' => Fuzz.score scorer (_normalize_name name) k' < 70)
             (keys d))).
Proof.
  unfold map_exercise.
  destruct (lookup (_normalize_name name) d) as [e|] eqn:Hl.
  { exists e, 100. split; [reflexivity|]. left. auto. }
  destruct d as [|p d'].
  { exists (unknown name), 0. split; [reflexivity|]. right. right.
    repeat split; constructor. }
  set (d := p :: d') in *.
  destruct (Fuzz.extractBests scorer (_normalize_name name) (keys d) 0%Q 3)
    as [|[k c] r] eqn:E.
  { exists (unknown name), 0. split; [reflexivity|]. right. right.
    repeat split; try reflexivity.
    apply RankingFacts.extractBests_nil in E.
    eapply Forall_impl; [|exact E]. simpl. intros. lia. }
  destruct (RankingFacts.extractBests_head_max _ _ _ _ E) as [Hc Hmax].
  assert (Hk : In k (keys d)
               /\ c = Fuzz.score scorer (_normalize_name name) k).
  { eapply FuzzFacts.extractBests_In. rewrite E. now left. }
  destruct Hk as [Hk Hs].
  destruct (70 <=? c) eqn:E70.
  - apply Z.leb_le in E70.
    destruct (MapperFacts.lookup_In _ _ Hk) as [e He].
    unfold subscript. rewrite He. simpl.
    exists e, c. split; [reflexivity|]. right. left.
    split; [reflexivity|]. split; [exact E70|]. split; [|exact Hmax].
    exists k. auto.
  - apply Z.leb_gt in E70.
    exists (unknown name), 0. split; [reflexivity|]. right. right.
    repeat split; try reflexivity.
    eapply Forall_impl; [|exact Hmax]. simpl. intros. lia.
Qed.

(** X4.  The three outcomes of [map_exercise], which never raises: the
    entry under the normalized name with confidence 100; or, when that is
    not a key, an entry of the catalog whose key has the highest score
    of all keys, that score being at least 70 and returned as
    confidence; or, when no key scores 70, the synthesized unknown entry
    with confidence 0. *)
Theorem map_exercise_outcomes (scorer : str -> str -> Q) d name :
  exists e c,
    map_exercise scorer d name = Ok (e, c) /\
    ((lookup (_normalize_name name) d = Some e /\ c = 100) \/
     (lookup (_normalize_name name) d = None /\ 70 <= c /\
      (exists k, In k (keys d) /\ lookup k d = Some e /\
                 c = Fuzz.score scorer (_normalize_name name) k) /\
      Forall (fun k' => Fuzz.score scorer (_normalize_name name) k' <= c)
             (keys d)) \/
     (lookup (_normalize_name name) d = None /\ c = 0 /\
      e = unknown name /\
      Forall (fun k' => Fuzz.score scorer (_normalize_name name) k' < 70)
             (keys d))).
Proof. apply map_exercise_outcomes_aux. Qed.


(** X6.  For a name that is not itself a key, [map_exercise] returns the
    top hit of [search], provided its score is at least 70: the entry
    under that key, with the score as confidence. *)
Theorem top_search_hit_is_the_resolution
        (scorer : str -> str -> Q) d name limit k c rest :
  lookup (_normalize_name name) d = None ->
  search scorer d name (S limit) = (k, c) :: rest ->
  70 <= c ->
  exists e, lookup k d = Some e /\ map_exercise scorer d name = Ok (e, c).
Proof.
  intros Hl Hs Hc. unfold search in Hs. unfold map_exercise. rewrite Hl.
  destruct d as [|p d']; [discriminate|].
  set (d := p :: d') in *. cbv zeta in Hs.
  pose proof (RankingFacts.extractBests_head_limit
                scorer (_normalize_name name) (keys d) limit 2) as Hh.
  rewrite Hs in Hh. change (S 2) with 3%nat in Hh.
  destruct (Fuzz.extractBests scorer (_normalize_name name) (keys d) 0%Q 3)
    as [|[k' c'] r] eqn:E3; simpl in Hh; [discriminate|].
  inversion Hh; subst k' c'.
  replace (70 <=? c) with true by (symmetry; apply Z.leb_le; lia).
  assert (Hk : In k (keys d)).
  { eapply FuzzFacts.extractBests_In. rewrite Hs. now left. }
  destruct (MapperFacts.lookup_In _ _ Hk) as [e He].
  exists e. split; [exact He|]. unfold subscript. now rewrite He.
Qed.

Lemma top_search_hit_is_the_resolution_witness :
  exists e,
    lookup (u "push ups") push_then_pull = Some e /\
    map_exercise Fuzz.token_sort_ratio push_then_pull (u "pu ups")
    = Ok (e, 86).
Proof.
  apply (@top_search_hit_is_the_resolution
           Fuzz.token_sort_ratio push_then_pull (u "pu ups") 4
           (u "push ups") 86 [(u "pull ups", 86)]).
  - vm_compute. reflexivity.
  - vm_compute. reflexivity.
  - vm_compute. discriminate.
Defined.

End MapperExtras.

(** ** Normal forms of names *)

Module NormalFormFacts.

Import ExerciseMapper.
Local Open Scope N_scope.

(** *** Characters *)

(** A property of the Latin-1 code points can be checked one by one. *)
Lemma below_256 (P : char -> bool) :
  forallb P (map N.of_nat (List.seq 0 256)) = true ->
  forall c, c < 256 -> P c = true.
Proof.
  intros H c Hc. rewrite forallb_forall in H. apply H.
  apply in_map_iff. exists (N.to_nat c). split; [apply N2Nat.id|].
  apply in_seq. lia.
Qed.

Lemma between_above lo hi c : hi < c -> between lo hi c = false.
Proof.
  intros H. unfold between.
  replace (c <=? hi) with false by (symmetry; apply N.leb_gt; lia).
  apply andb_false_r.
Qed.

Lemma eqb_above n c : n < c -> (c =? n) = false.
Proof. intros H. apply N.eqb_neq. lia. Qed.

Lemma lower_char_high c : 256 <= c -> lower_char c = c.
Proof.
  intros H. unfold lower_char, isupper_ascii.
  now rewrite !between_above by lia.
Qed.

Lemma upper_char_high c : 256 <= c -> upper_char c = [c].
Proof.
  intros H. unfold upper_char, islower_ascii.
  now rewrite !between_above, !eqb_above by lia.
Qed.

(** Lower-casing does not move a character into or out of the class of
    special characters. *)
Lemma special_lower_char c : special (lower_char c) = special c.
Proof.
  destruct (N.lt_ge_cases c 256) as [H|H].
  - apply eqb_prop.
    apply (below_256 (fun c => Bool.eqb (special (lower_char c)) (special c)));
      [vm_compute; reflexivity | exact H].
  - now rewrite lower_char_high.
Qed.

Lemma lower_char_idem c : lower_char (lower_char c) = lower_char c.
Proof.
  destruct (N.lt_ge_cases c 256) as [H|H].
  - apply N.eqb_eq.
    apply (below_256 (fun c => lower_char (lower_char c) =? lower_char c));
      [vm_compute; reflexivity | exact H].
  - now rewrite !(lower_char_high H).
Qed.

(** Upper-casing produces neither whitespace nor a hyphen from a
    character that is neither. *)
Lemma upper_char_no_separator c :
  isspace c || (c =? 45) = false ->
  Forall (fun x => isspace x || (x =? 45) = false) (upper_char c).
Proof.
  intros Hc. destruct (N.lt_ge_cases c 256) as [H|H].
  - pose proof (below_256
      (fun c => implb (negb (isspace c || (c =? 45)))
                      (forallb (fun x => negb (isspace x || (x =? 45)))
                               (upper_char c)))) as B.
    specialize (B eq_refl c H). cbv beta in B. rewrite Hc in B. simpl in B.
    rewrite forallb_forall in B. apply Forall_forall. intros x Hx.
    apply B in Hx. now apply negb_true_iff in Hx.
  - rewrite upper_char_high by assumption. now constructor.
Qed.

(** *** Stripping *)

Section Strip.
Variable p : char -> bool.

Lemma lstrip_by_length s : (length (lstrip_by p s) <= length s)%nat.
Proof.
  induction s as [|c t IH]; simpl; [lia|]. destruct (p c); simpl; lia.
Qed.

Lemma lstrip_by_idem s : lstrip_by p (lstrip_by p s) = lstrip_by p s.
Proof.
  induction s as [|c t IH]; simpl; [reflexivity|].
  destruct (p c) eqn:E; [exact IH|]. simpl. now rewrite E.
Qed.

Lemma lstrip_fixed_head c t : lstrip_by p (c :: t) = c :: t -> p c = false.
Proof.
  simpl. destruct (p c); [|reflexivity]. intros H.
  pose proof (lstrip_by_length t) as L. rewrite H in L. simpl in L. lia.
Qed.

Lemma lstrip_by_snoc s c :
  p c = false -> lstrip_by p (s ++ [c]) = lstrip_by p s ++ [c].
Proof.
  intros Hc. induction s as [|x s IH]; simpl; [now rewrite Hc|].
  now destruct (p x).
Qed.

Lemma lstrip_rstrip s :
  lstrip_by p s = s -> lstrip_by p (rstrip_by p s) = rstrip_by p s.
Proof.
  destruct s as [|c t]; [reflexivity|]. intros H.
  apply lstrip_fixed_head in H. unfold rstrip_by. simpl rev.
  rewrite lstrip_by_snoc, rev_app_distr by assumption. simpl. now rewrite H.
Qed.

Lemma Forall_lstrip_by (Q : char -> Prop) s :
  Forall Q s -> Forall Q (lstrip_by p s).
Proof.
  induction 1 as [|c t Hc Ht IH]; simpl; [constructor|].
  destruct (p c); [assumption | now constructor].
Qed.
End Strip.

Lemma lstrip_strip s : lstrip_by isspace (strip s) = strip s.
Proof. unfold strip. apply lstrip_rstrip, lstrip_by_idem. Qed.

Lemma lstrip_rev_strip s : lstrip_by isspace (rev (strip s)) = rev (strip s).
Proof.
  unfold strip, rstrip_by. rewrite rev_involutive. apply lstrip_by_idem.
Qed.

Lemma strip_fixed s :
  lstrip_by isspace s = s -> lstrip_by isspace (rev s) = rev s ->
  strip s = s.
Proof.
  intros H1 H2. unfold strip, rstrip_by. rewrite H1, H2. apply rev_involutive.
Qed.

(** [strip] is idempotent. *)
Lemma strip_idem s : strip (strip s) = strip s.
Proof. apply strip_fixed; [apply lstrip_strip | apply lstrip_rev_strip]. Qed.

Lemma Forall_strip (Q : char -> Prop) s : Forall Q s -> Forall Q (strip s).
Proof.
  intros H. unfold strip, rstrip_by.
  apply Forall_rev, Forall_lstrip_by, Forall_rev, Forall_lstrip_by, H.
Qed.

(** *** Collapsing runs *)

Section Runs.
Variable p : char -> bool.
Variable by_ : str.

Lemma sub_runs_snoc s c : forall f,
  p c = false -> sub_runs p by_ f (s ++ [c]) = sub_runs p by_ f s ++ [c].
Proof.
  induction s as [|x s IH]; intros f Hc; simpl.
  - now rewrite Hc.
  - destruct (p x); [destruct f|]; rewrite IH by assumption;
      now rewrite ?app_assoc.
Qed.

Lemma Forall_sub_runs (Q : char -> Prop) s : forall f,
  Forall Q by_ -> Forall Q s -> Forall Q (sub_runs p by_ f s).
Proof.
  intros f Hb Hs. revert f.
  induction Hs as [|c t Hc Ht IH]; intros f; simpl; [constructor|].
  destruct (p c); [destruct f|]; auto.
  apply Forall_app. auto.
Qed.

(** Outside the runs, the characters are kept. *)
Lemma Forall_sub_runs_kept (Q : char -> Prop) s : forall f,
  Forall Q by_ -> (forall c, In c s -> p c = false -> Q c) ->
  Forall Q (sub_runs p by_ f s).
Proof.
  intros f Hb. revert f.
  induction s as [|c t IH]; intros f Hs; simpl; [constructor|].
  destruct (p c) eqn:E; [destruct f|].
  - apply IH. intros; apply Hs; simpl; auto.
  - apply Forall_app. split; [assumption|].
    apply IH. intros; apply Hs; simpl; auto.
  - constructor; [apply Hs; simpl; auto|].
    apply IH. intros; apply Hs; simpl; auto.
Qed.
End Runs.

(** Collapsing whitespace twice is collapsing it once. *)
Lemma collapse_idem s :
  sub_runs isspace [32] false (sub_runs isspace [32] false s)
  = sub_runs isspace [32] false s /\
  sub_runs isspace [32] true (sub_runs isspace [32] true s)
  = sub_runs isspace [32] true s.
Proof.
  induction s as [|c t [IHf IHt]]; simpl; [auto|].
  destruct (isspace c) eqn:E; simpl.
  - change (isspace 32) with true. cbv iota. split; [now rewrite IHt|exact IHt].
  - rewrite E. split; now rewrite IHf.
Qed.

Lemma strip_collapse s :
  strip s = s ->
  strip (sub_runs isspace [32] false s) = sub_runs isspace [32] false s.
Proof.
  intros Hs.
  assert (H1 : lstrip_by isspace s = s) by (rewrite <- Hs; apply lstrip_strip).
  assert (H2 : lstrip_by isspace (rev s) = rev s)
    by (rewrite <- Hs; apply lstrip_rev_strip).
  destruct s as [|c t]; [reflexivity|].
  pose proof (lstrip_fixed_head _ H1) as Hc.
  apply strip_fixed.
  - simpl. rewrite Hc. simpl. now rewrite Hc.
  - destruct (rev (c :: t)) as [|y r] eqn:R.
    { apply (f_equal (@length _)) in R. rewrite length_rev in R. discriminate. }
    pose proof (lstrip_fixed_head _ H2) as Hy.
    assert (E : c :: t = rev r ++ [y]).
    { rewrite <- (rev_involutive (c :: t)), R. reflexivity. }
    rewrite E, sub_runs_snoc, rev_app_distr by assumption.
    simpl. now rewrite Hy.
Qed.

(** *** [_normalize_name] *)

Lemma plain_Forall s : plain s <-> Forall (fun c => special c = false) s.
Proof.
  unfold plain. rewrite forallb_forall, Forall_forall.
  split; intros H c Hc; specialize (H c Hc);
    [now apply negb_true_iff in H | now apply negb_true_iff].
Qed.

Lemma remove_special_plain s : plain s -> remove_special s = s.
Proof.
  unfold plain, remove_special. induction s as [|c t IH]; simpl; [reflexivity|].
  intros H. apply andb_prop in H as [Hc Ht]. rewrite Hc. now rewrite IH.
Qed.

Lemma plain_remove_special s : plain (remove_special s).
Proof.
  unfold plain, remove_special. apply forallb_forall.
  intros c Hc. now apply filter_In in Hc.
Qed.

(** On a plain name the last step removes nothing. *)
Lemma normalize_plain s :
  plain s ->
  _normalize_name s = sub_runs isspace [32] false (strip (lower s)) /\
  plain (_normalize_name s).
Proof.
  intros H. unfold _normalize_name.
  assert (P : plain (sub_runs isspace [32] false (strip (lower s)))).
  { apply plain_Forall, Forall_sub_runs; [now repeat constructor|].
    apply Forall_strip. apply plain_Forall in H. unfold lower.
    apply Forall_forall. intros c Hc. apply in_map_iff in Hc as [x [<- Hx]].
    rewrite special_lower_char. rewrite Forall_forall in H. now apply H. }
  rewrite (remove_special_plain P). auto.
Qed.

Lemma lower_fixed l : Forall (fun c => lower_char c = c) l -> lower l = l.
Proof.
  unfold lower. induction 1 as [|c t Hc Ht IH]; simpl; [reflexivity|].
  now rewrite Hc, IH.
Qed.

Lemma lower_normalize_plain s :
  plain s -> lower (_normalize_name s) = _normalize_name s.
Proof.
  intros H. destruct (normalize_plain H) as [-> _].
  assert (F : Forall (fun c => lower_char c = c)
                     (sub_runs isspace [32] false (strip (lower s)))).
  { apply Forall_sub_runs; [now repeat constructor|].
    apply Forall_strip. unfold lower. apply Forall_forall.
    intros c Hc. apply in_map_iff in Hc as [x [<- Hx]].
    apply lower_char_idem. }
  now apply lower_fixed.
Qed.

End NormalFormFacts.

(** ** Further properties of the name functions *)

Module NameExtras.

Import ExerciseMapper NormalFormFacts.
Local Open Scope N_scope.

Lemma normalize_idempotent_on_plain_names_aux s :
  plain s ->
  _normalize_name (_normalize_name s) = _normalize_name s.
Proof.
  intros H. destruct (normalize_plain H) as [En Pn].
  pose proof (lower_normalize_plain H) as Ln.
  assert (Sn : strip (_normalize_name s) = _normalize_name s).
  { rewrite En. apply strip_collapse, strip_idem. }
  assert (Cn : sub_runs isspace [32] false (_normalize_name s)
               = _normalize_name s).
  { rewrite En. apply collapse_idem. }
  unfold _normalize_name at 1. cbv zeta. rewrite Ln, Sn, Cn.
  now apply remove_special_plain.
Qed.

(** X7.  On a name without special characters (only word characters,
    whitespace and hyphens), [_normalize_name] is idempotent: its result
    is its own normal form. *)
Theorem normalize_idempotent_on_plain_names s :
  plain s ->
  _normalize_name (_normalize_name s) = _normalize_name s.
Proof. exact (@normalize_idempotent_on_plain_names_aux s). Qed.

Lemma normalize_idempotent_on_plain_names_witness :
  plain (u "  Wide-Grip   Pull Ups ") /\
  _normalize_name (_normalize_name (u "  Wide-Grip   Pull Ups "))
  = _normalize_name (u "  Wide-Grip   Pull Ups ").
Proof.
  split.
  - reflexivity.
  - apply (@normalize_idempotent_on_plain_names (u "  Wide-Grip   Pull Ups ")).
    reflexivity.
Defined.

(** X8.  Two passes of [_normalize_name] always reach a fixed point: a
    third pass changes nothing, for every input. *)
Theorem normalize_twice_is_stable s :
  _normalize_name (_normalize_name (_normalize_name s))
  = _normalize_name (_normalize_name s).
Proof.
  apply normalize_idempotent_on_plain_names_aux.
  unfold _normalize_name. apply plain_remove_special.
Qed.

Lemma Forall_flat_map {A B} (Q : B -> Prop) (f : A -> list B) l :
  (forall x, In x l -> Forall Q (f x)) -> Forall Q (flat_map f l).
Proof.
  induction l as [|a l IH]; simpl; intros H; [constructor|].
  apply Forall_app. split; [apply H; now left|].
  apply IH. intros; apply H; now right.
Qed.

(** X9.  The canonical name synthesized by [_to_garmin_format] contains
    no whitespace and no hyphen, whatever the input. *)
Theorem to_garmin_format_has_no_separator name :
  Forall (fun c => isspace c = false /\ c <> 45) (_to_garmin_format name).
Proof.
  unfold _to_garmin_format, upper.
  set (sep := fun c => isspace c || (c =? 45)).
  apply Forall_flat_map. intros x Hx.
  assert (Hsep : sep x = false).
  { revert x Hx. apply Forall_forall.
    apply Forall_sub_runs_kept; [now repeat constructor | auto]. }
  apply upper_char_no_separator in Hsep.
  eapply Forall_impl; [|exact Hsep]. cbv beta. intros c Hc.
  apply orb_false_elim in Hc as [Hs Hh]. split; [exact Hs|].
  now apply N.eqb_neq.
Qed.

End NameExtras.

(** ** Further properties of [WorkoutParser] *)

Module ParserExtras.

Import WorkoutParser Samples.
Local Open Scope Z_scope.

Lemma int_of_nonneg s : 0 <= int_of s.
Proof.
  unfold int_of. assert (G : forall acc, 0 <= acc ->
    0 <= fold_left (fun a c => a * 10 + Z.of_N (c - 48)) s acc).
  { induction s as [|c t IH]; simpl; intros acc Ha; [assumption|].
    apply IH. lia. }
  apply G. lia.
Qed.

(** What each block of [parse_exercise_line] puts in the record, for a
    stripped line. *)
Lemma first_result_shape line f m c :
  strip line = line ->
  first_result rules line = Some f ->
  well_shaped (resolved f m c) /\
  0 <= sets (resolved f m c) /\
  strip (raw_name (resolved f m c)) = raw_name (resolved f m c).
Proof.
  intros Hline. cbv [first_result rules].
  unfold rule_sets_reps_name, rule_name_sets_reps, rule_verbose,
    rule_sets_duration_name, rule_duration, rule_sets_of_name, rule_name_only.
  repeat match goal with
         | |- context [re_match ?r line] => destruct (re_match r line)
         | |- context [if ?b then _ else _] => destruct b
         end;
    intros H; inversion H; subst f; clear H; unfold well_shaped; simpl;
    (split; [|split];
     [ first [ left; split; [reflexivity|]; split; [|reflexivity];
               eexists; split; [reflexivity|];
               first [apply int_of_nonneg | lia]
             | right; split; [reflexivity|]; split; [|split; reflexivity];
               eexists; split; [reflexivity|]; apply int_of_nonneg ]
     | first [apply int_of_nonneg | lia]
     | first [apply NormalFormFacts.strip_idem | exact Hline] ]).
Qed.

Section Parsing.
Variable scorer : str -> str -> Q.
Variable d : ExerciseMapper.catalog.

(** How a record comes about. *)
Lemma parse_exercise_line_inv line e :
  parse_exercise_line scorer d line = Ok (Some e) ->
  skipped (strip line) = false /\
  exists f m c,
    first_result rules (strip line) = Some f /\
    ExerciseMapper.map_exercise scorer d (f_raw_name f) = Ok (m, c) /\
    e = resolved f m c.
Proof.
  unfold parse_exercise_line. cbv zeta.
  destruct (skipped (strip line)); [discriminate|].
  destruct (first_result rules (strip line)) as [f|]; [|discriminate].
  destruct (MapperFacts.map_exercise_total scorer d (f_raw_name f))
    as (m & c & E).
  rewrite E. simpl. intros H. inversion H. split; [reflexivity|].
  exists f, m, c. auto.
Qed.

(** The loop of [parse_workout] never raises, and keeps every invariant
    that each of its three kinds of step keeps: a header line, a line
    without a record, a line with a record. *)
Lemma scan_invariant
      (I : list str -> option str -> list exercise -> list str -> Prop) :
  (forall line rest sec exs ws,
      I (line :: rest) sec exs ws ->
      endswith (u ":") (strip line) || startswith (u "##") (strip line) = true ->
      I rest (Some (header_name (strip line))) exs ws) ->
  (forall line rest sec exs ws,
      I (line :: rest) sec exs ws ->
      endswith (u ":") (strip line) || startswith (u "##") (strip line) = false ->
      parse_exercise_line scorer d (strip_marker (strip line)) = Ok None ->
      I rest sec exs ws) ->
  (forall line rest sec exs ws e,
      I (line :: rest) sec exs ws ->
      endswith (u ":") (strip line) || startswith (u "##") (strip line) = false ->
      parse_exercise_line scorer d (strip_marker (strip line)) = Ok (Some e) ->
      I rest sec (exs ++ [with_section e sec])
        (if low_confidence (with_section e sec)
         then ws ++ [warning (with_section e sec)] else ws)) ->
  forall lines sec exs ws,
    I lines sec exs ws ->
    exists sec' exs' ws',
      scan scorer d lines sec exs ws = Ok (exs', ws') /\ I [] sec' exs' ws'.
Proof.
  intros Hh Hn Hs. induction lines as [|line rest IH]; intros sec exs ws HI.
  - simpl. eauto.
  - rewrite ParserFacts.scan_cons.
    destruct (endswith (u ":") (strip line) || startswith (u "##") (strip line))
      eqn:E.
    + apply IH. eapply Hh; eauto.
    + destruct (ParserFacts.parse_exercise_line_total scorer d
                  (strip_marker (strip line))) as [[e|] P];
        rewrite P; simpl bind; apply IH; eauto.
Qed.

(** The same for [parse_workout], started from the empty state. *)
Lemma parse_workout_invariant
      (I : list str -> option str -> list exercise -> list str -> Prop)
      text name :
  (forall line rest sec exs ws,
      I (line :: rest) sec exs ws ->
      endswith (u ":") (strip line) || startswith (u "##") (strip line) = true ->
      I rest (Some (header_name (strip line))) exs ws) ->
  (forall line rest sec exs ws,
      I (line :: rest) sec exs ws ->
      endswith (u ":") (strip line) || startswith (u "##") (strip line) = false ->
      parse_exercise_line scorer d (strip_marker (strip line)) = Ok None ->
      I rest sec exs ws) ->
  (forall line rest sec exs ws e,
      I (line :: rest) sec exs ws ->
      endswith (u ":") (strip line) || startswith (u "##") (strip line) = false ->
      parse_exercise_line scorer d (strip_marker (strip line)) = Ok (Some e) ->
      I rest sec (exs ++ [with_section e sec])
        (if low_confidence (with_section e sec)
         then ws ++ [warning (with_section e sec)] else ws)) ->
  I (split_chr 10%N (strip text)) None [] [] ->
  exists w sec',
    parse_workout scorer d text name = Ok w /\
    name = WorkoutParser.name w /\
    exercise_count w = Z.of_nat (length (exercises w)) /\
    I [] sec' (exercises w) (warnings w).
Proof.
  intros Hh Hn Hs H0.
  destruct (@scan_invariant I Hh Hn Hs _ _ _ _ H0)
    as (sec' & exs' & ws' & E & HI).
  unfold parse_workout. cbv zeta. rewrite E. simpl bind.
  eexists. exists sec'. split; [reflexivity|]. simpl. auto.
Qed.
End Parsing.

(** The record of a line, whatever section it is filed under. *)
Lemma record_of_line scorer d line e :
  parse_exercise_line scorer d line = Ok (Some e) ->
  (well_shaped e /\ 0 <= sets e /\ strip (raw_name e) = raw_name e) /\
  ((mapping_confidence e = 0 /\
    garmin_category e = u "UNKNOWN" /\
    garmin_name e = ExerciseMapper._to_garmin_format (raw_name e) /\
    muscles e = []) \/
   (70 <= mapping_confidence e /\
    exists k m,
      ExerciseMapper.lookup k d = Some m /\
      garmin_name e = ExerciseMapper.garmin_name m /\
      garmin_category e = ExerciseMapper.garmin_category m)).
Proof.
  intros H. apply parse_exercise_line_inv in H as (_ & f & m & c & Hf & Hm & ->).
  split.
  - apply (@first_result_shape (strip line) f m c);
      [apply NormalFormFacts.strip_idem | exact Hf].
  - destruct (MapperExtras.map_exercise_outcomes_aux scorer d (f_raw_name f))
      as (m' & c' & E & Hcases).
    rewrite Hm in E. inversion E; subst m' c'. clear E. simpl.
    destruct Hcases as [[Hl ->] | [(Hl & Hc & (k & Hk & He & _) & _)
                                  | (Hl & -> & -> & _)]].
    + right. split; [lia|]. eauto.
    + right. split; [exact Hc|]. eauto.
    + left. repeat split; reflexivity.
Qed.

Lemma parsed_exercises_are_well_shaped_aux
        (scorer : str -> str -> Q) (d : ExerciseMapper.catalog)
        (text name : str) :
  exists w,
    parse_workout scorer d text name = Ok w /\
    Forall (fun e => well_shaped e /\ 0 <= sets e /\
                     strip (raw_name e) = raw_name e)
           (exercises w).
Proof.
  destruct (@parse_workout_invariant scorer d
              (fun _ _ exs _ =>
                 Forall (fun e => well_shaped e /\ 0 <= sets e /\
                                  strip (raw_name e) = raw_name e) exs)
              text name)
    as (w & _ & E & _ & _ & HI); auto.
  - intros line rest sec exs ws e HI _ P.
    apply Forall_app. split; [exact HI|]. constructor; [|constructor].
    apply record_of_line in P as [P _]. exact P.
  - eauto.
Qed.

(** X10.  Every exercise in a result of [parse_workout] has one of two
    shapes: kind [Reps] with a rep count and no duration, or kind
    [Duration] with a duration and no rep count; the counts are not
    negative, and the raw name has no leading or trailing whitespace. *)
Theorem parsed_exercises_are_well_shaped
        (scorer : str -> str -> Q) (d : ExerciseMapper.catalog)
        (text name : str) (w : workout) :
  parse_workout scorer d text name = Ok w ->
  Forall (fun e => well_shaped e /\ 0 <= sets e /\
                   strip (raw_name e) = raw_name e)
         (exercises w).
Proof.
  intros E.
  destruct (parsed_exercises_are_well_shaped_aux scorer d text name)
    as (w' & E' & H).
  rewrite E in E'. inversion E'; subst w'. exact H.
Qed.

Lemma parsed_exercises_are_well_shaped_witness :
  exists w,
    parse_workout Fuzz.token_sort_ratio Samples.push_then_pull
                  (u "4x8 Pull ups
Dead hang - 30 sec") (u "Pull day") = Ok w /\
    Forall (fun e => well_shaped e /\ 0 <= sets e /\
                     strip (raw_name e) = raw_name e)
           (exercises w).
Proof.
  eexists. split; [vm_compute; reflexivity|].
  apply (@parsed_exercises_are_well_shaped
           Fuzz.token_sort_ratio Samples.push_then_pull
           (u "4x8 Pull ups
Dead hang - 30 sec") (u "Pull day")).
  vm_compute. reflexivity.
Defined.


(** X12.  An empty or whitespace-only text gives a workout with no
    exercises and no warnings. *)
Theorem blank_text_gives_empty_workout
        (scorer : str -> str -> Q) (d : ExerciseMapper.catalog)
        (text name : str) :
  blank text ->
  parse_workout scorer d text name
  = Ok {| name := name; exercises := []; exercise_count := 0;
          warnings := [] |}.
Proof.
  intros H. unfold parse_workout. cbv zeta.
  rewrite (TextFacts.strip_blank _ H). reflexivity.
Qed.

Lemma blank_text_gives_empty_workout_witness :
  blank (u "   ") /\
  parse_workout Fuzz.token_sort_ratio push_then_pull (u "   ") (u "Rest day")
  = Ok {| name := u "Rest day"; exercises := []; exercise_count := 0;
          warnings := [] |}.
Proof.
  split.
  - reflexivity.
  - apply (@blank_text_gives_empty_workout
             Fuzz.token_sort_ratio push_then_pull (u "   ") (u "Rest day")).
    reflexivity.
Defined.

Lemma workout_counts_aux
        (scorer : str -> str -> Q) (d : ExerciseMapper.catalog)
        (text name : str) :
  exists w,
    parse_workout scorer d text name = Ok w /\
    (length (exercises w) <= length (split_chr 10%N (strip text)))%nat /\
    (length (warnings w) <= length (exercises w))%nat /\
    exercise_count w = Z.of_nat (length (exercises w)).
Proof.
  destruct (@parse_workout_invariant scorer d
              (fun lines _ exs ws =>
                 (length exs + length lines
                  <= length (split_chr 10%N (strip text)))%nat /\
                 (length ws <= length exs)%nat)
              text name)
    as (w & _ & E & _ & Hc & H1 & H2).
  - intros line rest sec exs ws [H1 H2] _. simpl in H1. split; lia.
  - intros line rest sec exs ws [H1 H2] _ _. simpl in H1. split; lia.
  - intros line rest sec exs ws e [H1 H2] _ _. simpl in H1.
    rewrite length_app. simpl.
    destruct (low_confidence _); rewrite ?length_app; simpl; split; lia.
  - simpl. split; lia.
  - exists w. simpl in H1. repeat split; try assumption; lia.
Qed.



(** *** From text to step structure *)

Lemma to_garmin_format_inv w garmin :
  to_garmin_format w = Ok garmin ->
  workoutName garmin = WorkoutParser.name w /\
  steps_from 1 (exercises w) = Ok (segmentSteps garmin).
Proof.
  unfold to_garmin_format.
  destruct (steps_from 1 (exercises w)) as [gs|]; cbn [bind];
    [|discriminate].
  intros H. inversion H; subst. auto.
Qed.

Lemma parse_workout_text_inv scorer d text name parsed garmin :
  parse_workout_text scorer d text name = Ok (parsed, garmin) ->
  parse_workout scorer d text name = Ok parsed /\
  to_garmin_format parsed = Ok garmin.
Proof.
  unfold parse_workout_text.
  destruct (parse_workout scorer d text name) as [w|]; cbn [bind];
    [|discriminate].
  destruct (to_garmin_format w) as [g|] eqn:G; cbn [bind]; [|discriminate].
  intros H. inversion H; subst. auto.
Qed.

Lemma Forall2_Forall_l {A B} (P : A -> Prop) (R : A -> B -> Prop) l l' :
  Forall P l -> Forall2 R l l' -> Forall2 (fun a b => P a /\ R a b) l l'.
Proof.
  intros HP HR. induction HR; constructor; inversion HP; subst; auto.
Qed.

Lemma steps_from_end_conditions es : forall n gs,
  Forall well_shaped es ->
  steps_from n es = Ok gs ->
  Forall2 (fun e g =>
             exists work rest,
               workoutSteps g = [work; rest] /\
               exercise_ref work = Some (garmin_category e, garmin_name e) /\
               exists count,
                 match type e with
                 | Reps =>
                     endCondition work = {| id := 10; key := u "reps" |} /\
                     reps e = Some count
                 | Duration =>
                     endCondition work = {| id := 2; key := u "time" |} /\
                     duration_seconds e = Some count
                 end /\
                 Float.float_of_int count = Ok (endConditionValue work) /\
                 (count < 2 ^ 53 -> endConditionValue work = count))
          es gs.
Proof.
  intros n gs Hw H. apply ParserFacts.steps_from_inv in H.
  eapply Forall2_impl; [|exact (Forall2_Forall_l Hw H)]. cbv beta.
  intros e g [Hs [m Hg]].
  apply ParserFacts.repeat_group_of_inv in Hg
    as (_ & _ & work & rest & Hws & _ & _ & _ & _ & Href & Hend & Hfl).
  exists work, rest. split; [exact Hws|]. split; [exact Href|].
  unfold end_count, GarminClient.get in Hfl.
  destruct Hs as [(Ht & (r & Hr & Hr0) & _) | (Ht & (x & Hx & Hx0) & _)];
    rewrite Ht in *.
  - rewrite Hr in Hfl. exists r. split; [auto|]. split; [exact Hfl|].
    intros Hlt.
    rewrite FloatFacts.float_of_int_exact in Hfl by lia. congruence.
  - rewrite Hx in Hfl. exists x. split; [auto|]. split; [exact Hfl|].
    intros Hlt.
    rewrite FloatFacts.float_of_int_exact in Hfl by lia. congruence.
Qed.

Lemma iterations_are_sets es : forall n gs,
  steps_from n es = Ok gs ->
  length gs = length es /\ map numberOfIterations gs = map sets es.
Proof.
  intros n gs H. apply ParserFacts.steps_from_inv in H.
  induction H as [|e g es gs [m Hg] _ [IH1 IH2]]; [auto|].
  apply ParserFacts.repeat_group_of_inv in Hg as (_ & Hs & _).
  cbn [length map]. now rewrite IH1, IH2, Hs.
Qed.

(** X15.  Whenever [parse_workout_text] returns, the structure it has
    built carries the workout's name and has as many repeat groups as
    the parsed workout counts exercises, with the exercises' sets as
    iteration counts, in order. *)
Theorem parse_workout_text_is_consistent
        (scorer : str -> str -> Q) (d : ExerciseMapper.catalog)
        (text name : str) (parsed : workout) (garmin : garmin_workout) :
  parse_workout_text scorer d text name = Ok (parsed, garmin) ->
  workoutName garmin = name /\
  Z.of_nat (length (segmentSteps garmin)) = exercise_count parsed /\
  map numberOfIterations (segmentSteps garmin) = map sets (exercises parsed).
Proof.
  intros H. apply parse_workout_text_inv in H as [E G].
  destruct (workout_counts_aux scorer d text name) as (w & E' & _ & _ & Hc).
  rewrite E in E'. inversion E'; subst w. clear E'.
  assert (Hn : WorkoutParser.name parsed = name).
  { unfold parse_workout in E. cbv zeta in E.
    destruct (scan scorer d _ None [] []); simpl in E; [|discriminate].
    inversion E. reflexivity. }
  apply to_garmin_format_inv in G as [Hg Hs].
  apply iterations_are_sets in Hs as [Hl Hm].
  split; [congruence|]. split; [|exact Hm]. now rewrite Hl, Hc.
Qed.

Lemma parse_workout_text_is_consistent_witness :
  exists parsed garmin,
    parse_workout_text Fuzz.token_sort_ratio Samples.push_then_pull
                       (u "4x8 Pull ups
Dead hang - 30 sec") (u "Pull day") = Ok (parsed, garmin) /\
    workoutName garmin = u "Pull day" /\
    Z.of_nat (length (segmentSteps garmin)) = exercise_count parsed /\
    map numberOfIterations (segmentSteps garmin)
    = map sets (exercises parsed).
Proof.
  do 2 eexists. split; [vm_compute; reflexivity|].
  apply (@parse_workout_text_is_consistent
           Fuzz.token_sort_ratio Samples.push_then_pull
           (u "4x8 Pull ups
Dead hang - 30 sec") (u "Pull day")).
  vm_compute. reflexivity.
Defined.

(** X16.  In a structure built by [parse_workout_text], the interval
    step of every group ends on the float of the parsed count, which is
    the count itself when that is below 2^53: the rep count under a
    "reps" condition for kind [Reps], the duration under a "time"
    condition for kind [Duration]; and it names the exercise's category
    and canonical name.  The defaults of [to_garmin_format] (10 reps,
    30 seconds) are never used for a parsed workout. *)
Theorem parsed_steps_end_on_parsed_values
        (scorer : str -> str -> Q) (d : ExerciseMapper.catalog)
        (text name : str) (parsed : workout) (garmin : garmin_workout) :
  parse_workout_text scorer d text name = Ok (parsed, garmin) ->
  Forall2 (fun e g =>
             exists work rest,
               workoutSteps g = [work; rest] /\
               exercise_ref work = Some (garmin_category e, garmin_name e) /\
               exists count,
                 match type e with
                 | Reps =>
                     endCondition work = {| id := 10; key := u "reps" |} /\
                     reps e = Some count
                 | Duration =>
                     endCondition work = {| id := 2; key := u "time" |} /\
                     duration_seconds e = Some count
                 end /\
                 Float.float_of_int count = Ok (endConditionValue work) /\
                 (count < 2 ^ 53 -> endConditionValue work = count))
          (exercises parsed) (segmentSteps garmin).
Proof.
  intros H. apply parse_workout_text_inv in H as [E G].
  destruct (parsed_exercises_are_well_shaped_aux scorer d text name)
    as (w & E' & Hw).
  rewrite E in E'. inversion E'; subst w. clear E'.
  apply to_garmin_format_inv in G as [_ Hs].
  eapply steps_from_end_conditions; [|exact Hs].
  eapply Forall_impl; [|exact Hw]. simpl. tauto.
Qed.

Lemma parsed_steps_end_on_parsed_values_witness :
  exists parsed garmin,
    parse_workout_text Fuzz.token_sort_ratio Samples.push_then_pull
                       (u "4x8 Pull ups
Dead hang - 30 sec") (u "Pull day") = Ok (parsed, garmin) /\
    Forall2 (fun e g =>
               exists work rest,
                 workoutSteps g = [work; rest] /\
                 exercise_ref work
                 = Some (garmin_category e, garmin_name e) /\
                 exists count,
                   match type e with
                   | Reps =>
                       endCondition work = {| id := 10; key := u "reps" |} /\
                       reps e = Some count
                   | Duration =>
                       endCondition work = {| id := 2; key := u "time" |} /\
                       duration_seconds e = Some count
                   end /\
                   Float.float_of_int count = Ok (endConditionValue work) /\
                   (count < 2 ^ 53 -> endConditionValue work = count))
            (exercises parsed) (segmentSteps garmin).
Proof.
  do 2 eexists. split; [vm_compute; reflexivity|].
  apply (@parsed_steps_end_on_parsed_values
           Fuzz.token_sort_ratio Samples.push_then_pull
           (u "4x8 Pull ups
Dead hang - 30 sec") (u "Pull day")).
  vm_compute. reflexivity.
Defined.

End ParserExtras.

(** ** Properties of [build_strength_workout] *)

Module ClientExtras.

Import WorkoutParser GarminClient Samples.
Local Open Scope Z_scope.

(** What [strength_group] returns, when it returns. *)
Lemma strength_group_inv e n g :
  strength_group e n = Ok g ->
  group_stepOrder g = n /\
  numberOfIterations g = get (se_sets e) 3 /\
  exists work rest,
    workoutSteps g = [work; rest] /\
    stepOrder work = n + 1 /\
    stepOrder rest = n + 2 /\
    stepType work = {| id := 3; key := u "interval" |} /\
    endCondition work = {| id := 10; key := u "reps" |} /\
    Float.float_of_int (get (se_reps e) 10) = Ok (endConditionValue work) /\
    exercise_ref work
    = Some (get (se_category e) (u "UNKNOWN"),
            get (se_name e) (u "UNKNOWN")) /\
    stepType rest = {| id := 5; key := u "rest" |}.
Proof.
  unfold strength_group. cbv zeta.
  destruct (Float.float_of_int _) as [x|x]; cbn [bind];
    intros H; inversion H; subst; clear H; cbn.
  split; [reflexivity|]. split; [reflexivity|].
  do 2 eexists. repeat (split; [reflexivity|]). reflexivity.
Qed.

Lemma strength_steps_total es : forall n,
  Forall (fun e => convertible (get (se_reps e) 10)) es ->
  exists gs, strength_steps n es = Ok gs.
Proof.
  induction es as [|e es IH]; intros n H; cbn [strength_steps]; [eauto|].
  inversion H as [|? ? He Hes]; subst.
  apply FloatFacts.convertible_spec in He as [x He].
  unfold strength_group at 1. cbv zeta. rewrite He. cbn [bind].
  destruct (IH (n + 3) Hes) as [gs ->]. cbn [bind]. eauto.
Qed.

Lemma strength_steps_inv es : forall n gs,
  strength_steps n es = Ok gs ->
  Forall2 (fun e g => exists m, strength_group e m = Ok g) es gs.
Proof.
  induction es as [|e es IH]; intros n gs H; cbn [strength_steps] in H.
  - inversion H. constructor.
  - destruct (strength_group e n) as [g|] eqn:Eg; [|discriminate].
    cbn [bind] in H.
    destruct (strength_steps (n + 3) es) as [gs'|] eqn:Es; [|discriminate].
    cbn [bind] in H. inversion H; subst.
    constructor; [eauto | eapply IH; eassumption].
Qed.

Lemma step_orders_strength_steps es : forall n gs,
  strength_steps (Z.of_nat n) es = Ok gs ->
  step_orders gs = map Z.of_nat (List.seq n (3 * length es)).
Proof.
  induction es as [|e es IH]; intros n gs H; cbn [strength_steps] in H.
  - inversion H. reflexivity.
  - destruct (strength_group e (Z.of_nat n)) as [g|] eqn:Eg; [|discriminate].
    cbn [bind] in H.
    destruct (strength_steps (Z.of_nat n + 3) es) as [gs'|] eqn:Es;
      [|discriminate].
    cbn [bind] in H. inversion H; subst. clear H.
    cbn [length].
    replace (3 * S (length es))%nat with (S (S (S (3 * length es)))) by lia.
    cbn [List.seq map]. unfold step_orders in *. cbn [flat_map].
    replace (Z.of_nat n + 3) with (Z.of_nat (S (S (S n)))) in Es by lia.
    rewrite (IH _ _ Es).
    apply strength_group_inv in Eg
      as (Hg & _ & work & rest & Hw & H1 & H2 & _).
    rewrite Hg, Hw. cbn [map List.app]. rewrite H1, H2.
    repeat (f_equal; try lia).
Qed.

(** X17.  When [float()] accepts every rep count (10 when missing),
    [build_strength_workout] returns, and emits one repeat group per
    exercise: its iteration count is the exercise's sets (3 when
    missing), it holds an interval step ending on the float of the rep
    count, which is the rep count itself when that is below 2^53 in
    magnitude, and naming the category and exercise ("UNKNOWN" when
    missing), then a rest step; the step numbers read 1, 2, ..., 3K. *)
Theorem build_strength_workout_structure name es description :
  Forall (fun e => convertible (get (se_reps e) 10)) es ->
  exists garmin,
    build_strength_workout name es description = Ok garmin /\
    let gs := segmentSteps garmin in
    Forall2 (fun e g =>
               numberOfIterations g = get (se_sets e) 3 /\
               exists work rest,
                 workoutSteps g = [work; rest] /\
                 stepType work = {| id := 3; key := u "interval" |} /\
                 endCondition work = {| id := 10; key := u "reps" |} /\
                 Float.float_of_int (get (se_reps e) 10)
                 = Ok (endConditionValue work) /\
                 (Z.abs (get (se_reps e) 10) < 2 ^ 53 ->
                  endConditionValue work = get (se_reps e) 10) /\
                 exercise_ref work
                 = Some (get (se_category e) (u "UNKNOWN"),
                         get (se_name e) (u "UNKNOWN")) /\
                 stepType rest = {| id := 5; key := u "rest" |})
            es gs /\
    step_orders gs = map Z.of_nat (List.seq 1 (3 * length es)) /\
    StronglySorted Z.lt (step_orders gs).
Proof.
  intros Hc. unfold build_strength_workout.
  destruct (@strength_steps_total es 1 Hc) as [gs E].
  rewrite E. cbn [bind]. eexists. split; [reflexivity|].
  cbn [segmentSteps].
  pose proof (@step_orders_strength_steps es 1%nat gs E) as HO.
  split; [|split; [exact HO|]].
  - apply strength_steps_inv in E.
    eapply Forall2_impl; [|exact E]. cbv beta.
    intros e g [m Hg].
    apply strength_group_inv in Hg
      as (_ & Hs & work & rest & Hw & _ & _ & H1 & H2 & H3 & H4 & H5).
    split; [exact Hs|]. exists work, rest.
    repeat (split; [assumption|]). split; [|auto].
    intros Hlt.
    rewrite FloatFacts.float_of_int_exact in H3 by exact Hlt. congruence.
  - rewrite HO. apply ParserFacts.seq_increasing.
Qed.

Lemma build_strength_workout_structure_witness :
  exists garmin,
    build_strength_workout
      (u "Pull day")
      [ {| se_name := Some (u "PULL_UP"); se_category := Some (u "PULL_UP");
           se_sets := Some 4; se_reps := Some 8 |};
        {| se_name := None; se_category := None;
           se_sets := None; se_reps := None |} ] []
    = Ok garmin /\
    step_orders (segmentSteps garmin) = [1; 2; 3; 4; 5; 6].
Proof.
  destruct (@build_strength_workout_structure
              (u "Pull day")
              [ {| se_name := Some (u "PULL_UP");
                   se_category := Some (u "PULL_UP");
                   se_sets := Some 4; se_reps := Some 8 |};
                {| se_name := None; se_category := None;
                   se_sets := None; se_reps := None |} ] [])
    as (garmin & E & _ & HO & _).
  - repeat constructor; vm_compute; reflexivity.
  - exists garmin. split; [exact E | exact HO].
Defined.

Lemma steps_agree es : forall n,
  Forall (fun e => type e = Reps) es ->
  steps_from n es = strength_steps n (map as_strength es).
Proof.
  induction es as [|e es IH]; intros n H; [reflexivity|].
  inversion H as [|? ? He Hes]; subst.
  cbn [steps_from strength_steps map]. rewrite (IH _ Hes).
  replace (repeat_group_of e n) with (strength_group (as_strength e) n);
    [reflexivity|].
  unfold repeat_group_of, strength_group, as_strength, get. cbn.
  rewrite He.
  destruct (Float.float_of_int _); reflexivity.
Qed.

Lemma builders_agree_on_reps_aux (w : workout) :
  Forall (fun e => type e = Reps) (exercises w) ->
  to_garmin_format w
  = build_strength_workout (WorkoutParser.name w)
                           (map as_strength (exercises w)) [].
Proof.
  intros H. unfold to_garmin_format, build_strength_workout.
  rewrite length_map, (steps_agree 1 H). reflexivity.
Qed.

(** X18.  The two builders agree on rep-based workouts: when every
    exercise of a parsed workout has kind [Reps], [to_garmin_format]
    gives exactly what [build_strength_workout] gives for the workout's
    name, the exercises' canonical names, categories, sets and reps, and
    no description. *)
Theorem builders_agree_on_reps (w : workout) :
  Forall (fun e => type e = Reps) (exercises w) ->
  to_garmin_format w
  = build_strength_workout (WorkoutParser.name w)
                           (map as_strength (exercises w)) [].
Proof. exact (@builders_agree_on_reps_aux w). Qed.

Lemma builders_agree_on_reps_witness :
  exists w,
    parse_workout Fuzz.token_sort_ratio push_then_pull
                  (u "4x8 Pull ups") (u "Pull day") = Ok w /\
    to_garmin_format w
    = build_strength_workout
        (u "Pull day")
        [ {| se_name := Some (u "PULL_UP"); se_category := Some (u "PULL_UP");
             se_sets := Some 4; se_reps := Some 8 |} ] [].
Proof.
  eexists. split.
  - vm_compute. reflexivity.
  - apply (@builders_agree_on_reps
             {| name := u "Pull day";
                exercises :=
                  [ {| raw_name := u "Pull ups"; sets := 4; reps := Some 8;
                       reps_high := None; duration_seconds := None;
                       type := Reps; garmin_name := u "PULL_UP";
                       garmin_category := u "PULL_UP";
                       muscles := [u "lats"; u "biceps"];
                       mapping_confidence := 100; section := None |} ];
                exercise_count := 1; warnings := [] |}).
    repeat constructor.
Defined.

End ClientExtras.

(** ** Properties of the dates of [schedule_workout] *)

Module ToolExtras.

Import GarminTool.
Local Open Scope Z_scope.

Lemma day_map_range day : 0 <= day_map day <= 6.
Proof. destruct day; simpl; lia. Qed.

(** The first date is the next day of the wanted name strictly after
    today. *)
Lemma days_ahead_spec today day :
  1 <= days_ahead today day <= 7 /\
  weekday (today + days_ahead today day) = day_map day.
Proof.
  pose proof (day_map_range day) as Hd.
  unfold days_ahead, weekday. cbv zeta.
  pose proof (Z.mod_pos_bound (today + 6) 7 ltac:(lia)) as Hm.
  destruct (day_map day - (today + 6) mod 7 <=? 0) eqn:E;
    [apply Z.leb_le in E | apply Z.leb_gt in E]; (split; [lia|]).
  - replace (today + (day_map day - (today + 6) mod 7 + 7) + 6)
      with (day_map day + ((today + 6) - (today + 6) mod 7) + 1 * 7) by lia.
    rewrite Z.mod_add by lia.
    rewrite (Z.div_mod (today + 6) 7) at 1 by lia.
    replace (day_map day + (7 * ((today + 6) / 7) + (today + 6) mod 7
                            - (today + 6) mod 7))
      with (day_map day + ((today + 6) / 7) * 7) by lia.
    rewrite Z.mod_add by lia. apply Z.mod_small. lia.
  - replace (today + (day_map day - (today + 6) mod 7) + 6)
      with (day_map day + ((today + 6) - (today + 6) mod 7)) by lia.
    rewrite (Z.div_mod (today + 6) 7) at 1 by lia.
    replace (day_map day + (7 * ((today + 6) / 7) + (today + 6) mod 7
                            - (today + 6) mod 7))
      with (day_map day + ((today + 6) / 7) * 7) by lia.
    rewrite Z.mod_add by lia. apply Z.mod_small. lia.
Qed.

Lemma schedule_loop_in_range next_date weeks :
  1 <= next_date ->
  Forall (fun i => 0 <= i /\ next_date + 7 * i <= max_ordinal) weeks ->
  schedule_loop next_date weeks
  = (map (fun i => next_date + 7 * i) weeks, None).
Proof.
  intros Hn. induction 1 as [|i rest [Hi Hm] _ IH]; [reflexivity|].
  cbn [schedule_loop map]. unfold plus_days.
  replace (1 <=? next_date + 7 * i) with true
    by (symmetry; apply Z.leb_le; lia).
  replace (next_date + 7 * i <=? max_ordinal) with true
    by (symmetry; now apply Z.leb_le).
  cbn [andb]. now rewrite IH.
Qed.

(** X19.  As long as the dates stay within the calendar (today is a
    date, and neither the day a week from today nor the day [weeks]
    weeks from today is past 31 December 9999), [schedule_workout] asks
    for one date per week and no date arithmetic raises: the first date
    is the next day with the chosen name strictly after today (a week
    from today when today has that name), at most 7 days ahead; the
    others follow at 7-day steps; there are [weeks] of them (none when
    [weeks] is not positive), and all fall on the chosen day of the
    week. *)
Theorem schedule_dates_are_weekly today day weeks :
  1 <= today ->
  today + 7 <= max_ordinal ->
  today + 7 * weeks <= max_ordinal ->
  exists first,
    today < first <= today + 7 /\
    weekday first = day_map day /\
    schedule_dates today day weeks
    = (map (fun i => first + 7 * Z.of_nat i) (List.seq 0 (Z.to_nat weeks)),
       None) /\
    Forall (fun date => today < date /\ weekday date = day_map day)
           (fst (schedule_dates today day weeks)).
Proof.
  intros H1 H7 Hw.
  destruct (days_ahead_spec today day) as [Hr Hd].
  exists (today + days_ahead today day).
  split; [lia|]. split; [exact Hd|].
  assert (E : schedule_dates today day weeks
              = (map (fun i => today + days_ahead today day + 7 * Z.of_nat i)
                     (List.seq 0 (Z.to_nat weeks)), None)).
  { unfold schedule_dates, plus_days.
    replace (1 <=? today + days_ahead today day) with true
      by (symmetry; apply Z.leb_le; lia).
    replace (today + days_ahead today day <=? max_ordinal) with true
      by (symmetry; apply Z.leb_le; lia).
    cbn [andb]. rewrite schedule_loop_in_range; [|lia|].
    - unfold range. now rewrite map_map.
    - unfold range. apply Forall_forall. intros i Hi.
      apply in_map_iff in Hi as [j [<- Hj]]. apply in_seq in Hj. lia. }
  split; [exact E|]. rewrite E. cbn [fst].
  apply Forall_forall. intros date Hin.
  apply in_map_iff in Hin as [i [<- _]]. split; [lia|].
  unfold weekday in *.
  replace (today + days_ahead today day + 7 * Z.of_nat i + 6)
    with (today + days_ahead today day + 6 + Z.of_nat i * 7) by lia.
  now rewrite Z.mod_add by lia.
Qed.

(** Wednesday 4 November 2026 has ordinal 739924; three Fridays from
    then are 6, 13 and 20 November. *)
Lemma schedule_dates_are_weekly_witness :
  exists first,
    739924 < first <= 739924 + 7 /\
    weekday first = day_map friday /\
    schedule_dates 739924 friday 3
    = (map (fun i => first + 7 * Z.of_nat i) (List.seq 0 (Z.to_nat 3)),
       None) /\
    Forall (fun date => 739924 < date /\ weekday date = day_map friday)
           (fst (schedule_dates 739924 friday 3)).
Proof.
  apply (@schedule_dates_are_weekly 739924 friday 3);
    vm_compute; discriminate.
Defined.

(** *** The two ways of [create_workout] *)

Import WorkoutParser.

(** What [parse_workout] records about the mapper's answer. *)
Lemma parsed_exercises_resolve
      (scorer : str -> str -> Q) (d : ExerciseMapper.catalog)
      (text name : str) :
  exists w,
    parse_workout scorer d text name = Ok w /\
    WorkoutParser.name w = name /\
    Forall (fun e =>
              well_shaped e /\
              exists m c,
                ExerciseMapper.map_exercise scorer d (raw_name e) = Ok (m, c) /\
                garmin_name e = ExerciseMapper.garmin_name m /\
                garmin_category e = ExerciseMapper.garmin_category m)
           (exercises w).
Proof.
  destruct (@ParserExtras.parse_workout_invariant scorer d
              (fun _ _ exs _ =>
                 Forall (fun e =>
                   well_shaped e /\
                   exists m c,
                     ExerciseMapper.map_exercise scorer d (raw_name e)
                     = Ok (m, c) /\
                     garmin_name e = ExerciseMapper.garmin_name m /\
                     garmin_category e = ExerciseMapper.garmin_category m) exs)
              text name)
    as (w & _ & E & Hn & _ & HI); auto.
  - intros line rest sec exs ws e HI _ P.
    apply Forall_app. split; [exact HI|]. constructor; [|constructor].
    pose proof (ParserExtras.record_of_line _ _ _ P) as [[Hw _] _].
    apply ParserExtras.parse_exercise_line_inv in P
      as (_ & f & m & c & _ & Hm & ->).
    split; [exact Hw|]. exists m, c. simpl. auto.
  - exists w. auto.
Qed.

Lemma mapped_exercises_of_parsed
      (scorer : str -> str -> Q) (d : ExerciseMapper.catalog) es :
  Forall (fun e =>
            well_shaped e /\
            exists m c,
              ExerciseMapper.map_exercise scorer d (raw_name e) = Ok (m, c) /\
              garmin_name e = ExerciseMapper.garmin_name m /\
              garmin_category e = ExerciseMapper.garmin_category m) es ->
  Forall (fun e => type e = Reps) es ->
  mapped_exercises scorer d (map as_json es) = Ok (map as_strength es).
Proof.
  induction 1 as [|e es [Hw (m & c & Hm & Hn & Hc)] _ IH]; intros Hr;
    [reflexivity|].
  inversion Hr as [|? ? He Hes]; subst.
  cbn [map mapped_exercises]. unfold as_json at 1. cbn [je_name GarminClient.get].
  rewrite Hm. simpl bind. rewrite (IH Hes). simpl bind.
  unfold as_strength at 2, as_json. cbn [je_sets je_reps fst GarminClient.get].
  rewrite <- Hn, <- Hc.
  destruct Hw as [(_ & (r & Hreps & _) & _) | (Hd & _)]; [|congruence].
  rewrite Hreps. reflexivity.
Qed.

(** X20.  The two input forms of [create_workout] lead to the same
    payload: when a text parses to rep-based exercises only, giving the
    raw names, sets and reps of those exercises as the JSON array
    produces exactly the structure that [parse_workout_text] builds from
    the text (with the same catalog). *)
Theorem json_and_text_paths_agree
        (scorer : str -> str -> Q) (d : ExerciseMapper.catalog)
        (text name : str) (w : workout) :
  parse_workout scorer d text name = Ok w ->
  Forall (fun e => type e = Reps) (exercises w) ->
  workout_from_exercises scorer d name (map as_json (exercises w))
  = to_garmin_format w.
Proof.
  intros E Hr.
  destruct (parsed_exercises_resolve scorer d text name) as (w' & E' & Hn & HI).
  rewrite E in E'. inversion E'; subst w'. clear E'.
  unfold workout_from_exercises.
  rewrite (@mapped_exercises_of_parsed _ _ _ HI Hr). cbn [bind].
  rewrite (@ClientExtras.builders_agree_on_reps_aux w Hr), Hn. reflexivity.
Qed.

Lemma json_and_text_paths_agree_witness :
  exists w,
    parse_workout Fuzz.token_sort_ratio Samples.push_then_pull
                  (u "4x8 Pull-ups
3 sets of Push ups") (u "Upper") = Ok w /\
    workout_from_exercises
      Fuzz.token_sort_ratio Samples.push_then_pull (u "Upper")
      [ {| je_name := Some (u "Pull-ups"); je_exercise := None;
           je_sets := Some 4; je_reps := Some 8 |};
        {| je_name := Some (u "Push ups"); je_exercise := None;
           je_sets := Some 3; je_reps := Some 10 |} ]
    = to_garmin_format w.
Proof.
  assert (E : exists w,
             parse_workout Fuzz.token_sort_ratio Samples.push_then_pull
                           (u "4x8 Pull-ups
3 sets of Push ups") (u "Upper") = Ok w /\
             Forall (fun e => type e = Reps) (exercises w) /\
             map as_json (exercises w)
             = [ {| je_name := Some (u "Pull-ups"); je_exercise := None;
                    je_sets := Some 4; je_reps := Some 8 |};
                 {| je_name := Some (u "Push ups"); je_exercise := None;
                    je_sets := Some 3; je_reps := Some 10 |} ]).
  { eexists. split; [vm_compute; reflexivity|].
    split; [repeat constructor | reflexivity]. }
  destruct E as (w & E & Hr & Hj). exists w. split; [exact E|].
  rewrite <- Hj.
  apply (@json_and_text_paths_agree
           Fuzz.token_sort_ratio Samples.push_then_pull
           (u "4x8 Pull-ups
3 sets of Push ups") (u "Upper") w E Hr).
Defined.

(** *** Choosing the workout to schedule *)

Lemma startswith_refl s : startswith s s = true.
Proof.
  induction s as [|c t IH]; simpl; [reflexivity|].
  now rewrite N.eqb_refl.
Qed.

Lemma contains_refl s : contains s s = true.
Proof. destruct s; simpl; rewrite ?N.eqb_refl, ?startswith_refl; reflexivity. Qed.

Lemma exact_matches q w : is_exact q w = true -> matches_name q w = true.
Proof.
  unfold is_exact, matches_name. intros H.
  apply TextFacts.eqb_eq in H. rewrite H. apply contains_refl.
Qed.

Lemma filter_exact_matching q ws :
  filter (is_exact q) (filter (matches_name q) ws) = filter (is_exact q) ws.
Proof.
  induction ws as [|w ws IH]; simpl; [reflexivity|].
  destruct (matches_name q w) eqn:M; simpl.
  - now rewrite IH.
  - destruct (is_exact q w) eqn:X; [|exact IH].
    apply exact_matches in X. congruence.
Qed.

(** X21.  The workout that [schedule_workout] picks is one of the
    listed workouts, and its name contains the requested name, ignoring
    case. *)
Theorem selected_workout_matches workouts workout_name w :
  select_workout workouts workout_name = Some w ->
  In w workouts /\ matches_name workout_name w = true.
Proof.
  unfold select_workout. cbv zeta.
  destruct (filter (matches_name workout_name) workouts) as [|a [|b l]] eqn:F.
  - discriminate.
  - intros H. inversion H; subst a.
    apply filter_In. rewrite F. now left.
  - destruct (filter (is_exact workout_name) (a :: b :: l)) as [|x xs] eqn:X;
      [discriminate|].
    intros H. inversion H; subst x.
    assert (Hin : In w (filter (is_exact workout_name) (a :: b :: l)))
      by (rewrite X; now left).
    apply filter_In in Hin as [Hin _]. rewrite <- F in Hin.
    now apply filter_In in Hin.
Qed.

Lemma selected_workout_matches_witness :
  In {| workoutId := Some 7; GarminTool.workoutName := Some (u "Monday Push") |}
     [ {| workoutId := Some 7; GarminTool.workoutName := Some (u "Monday Push") |};
       {| workoutId := Some 9; GarminTool.workoutName := Some (u "Wednesday Pull") |} ] /\
  matches_name (u "push")
               {| workoutId := Some 7; GarminTool.workoutName := Some (u "Monday Push") |}
  = true.
Proof.
  apply (@selected_workout_matches
           [ {| workoutId := Some 7; GarminTool.workoutName := Some (u "Monday Push") |};
             {| workoutId := Some 9; GarminTool.workoutName := Some (u "Wednesday Pull") |} ]
           (u "push")
           {| workoutId := Some 7; GarminTool.workoutName := Some (u "Monday Push") |}).
  vm_compute. reflexivity.
Defined.

(** X22.  A workout whose name equals the requested name, ignoring
    case, always wins: if the list holds one, the workout picked is the
    first of the listed workouts with such a name, however many other
    names merely contain the request. *)
Theorem exact_name_is_selected workouts workout_name w0 :
  In w0 workouts ->
  is_exact workout_name w0 = true ->
  exists w,
    select_workout workouts workout_name = Some w /\
    hd_error (filter (is_exact workout_name) workouts) = Some w /\
    is_exact workout_name w = true.
Proof.
  intros Hin Hx.
  assert (Hex : In w0 (filter (is_exact workout_name) workouts))
    by (apply filter_In; auto).
  assert (Hm : In w0 (filter (matches_name workout_name) workouts))
    by (apply filter_In; auto using exact_matches).
  pose proof (filter_exact_matching workout_name workouts) as FE.
  unfold select_workout. cbv zeta.
  destruct (filter (matches_name workout_name) workouts) as [|a [|b l]] eqn:F.
  - destruct Hm.
  - destruct Hm as [->|[]]. simpl in FE. rewrite Hx in FE.
    exists w0. rewrite <- FE. auto.
  - rewrite FE.
    destruct (filter (is_exact workout_name) workouts) as [|x xs] eqn:X;
      [destruct Hex|].
    exists x. repeat split.
    assert (Hxin : In x (filter (is_exact workout_name) workouts))
      by (rewrite X; now left).
    now apply filter_In in Hxin.
Qed.

Lemma exact_name_is_selected_witness :
  exists w,
    select_workout
      [ {| workoutId := Some 1; GarminTool.workoutName := Some (u "Push Day B") |};
        {| workoutId := Some 2; GarminTool.workoutName := Some (u "push day") |};
        {| workoutId := Some 3; GarminTool.workoutName := Some (u "Push Day") |} ]
      (u "Push Day") = Some w /\
    hd_error (filter (is_exact (u "Push Day"))
      [ {| workoutId := Some 1; GarminTool.workoutName := Some (u "Push Day B") |};
        {| workoutId := Some 2; GarminTool.workoutName := Some (u "push day") |};
        {| workoutId := Some 3; GarminTool.workoutName := Some (u "Push Day") |} ])
    = Some w /\
    is_exact (u "Push Day") w = true.
Proof.
  apply (@exact_name_is_selected
      [ {| workoutId := Some 1; GarminTool.workoutName := Some (u "Push Day B") |};
        {| workoutId := Some 2; GarminTool.workoutName := Some (u "push day") |};
        {| workoutId := Some 3; GarminTool.workoutName := Some (u "Push Day") |} ]
      (u "Push Day")
      {| workoutId := Some 3; GarminTool.workoutName := Some (u "Push Day") |}).
  - simpl. auto.
  - vm_compute. reflexivity.
Defined.

End ToolExtras.
